(** * Thirteen Gopher server: request pipeline

    A shallow embedding of [cmd/thirteen/sys_unix.go] (request reader,
    request splitter, path normalizer, path resolver, CGI runner and the
    accept loop) together with the properties of its specification.

    Go strings and byte slices are sequences of bytes and are modelled by
    [string]; Go's [int] indices are [nat] (every index in the code is
    non-negative); [map[string]bool] is a [gmap string bool]. *)

From Stdlib Require Import ZArith Ascii DecimalString.
From Stdlib Require String.
From stdpp Require Import gmap strings list.

Local Open Scope stdpp_scope.
#[local] Set Warnings "-abstract-large-number".

(* ===================================================================== *)
(** * Part I: the embedding *)
(* ===================================================================== *)

(** ** Go string primitives *)

(** [len(s)] *)
Definition len (s : string) : nat := String.length s.

(** [s[n:]] (saturating; Go panics when [n > len(s)]) *)
Fixpoint str_drop (n : nat) (s : string) : string :=
  match n, s with
  | 0, _ => s
  | S n', String _ r => str_drop n' r
  | S _, EmptyString => EmptyString
  end.

(** [s[:n]] (saturating; Go panics when [n > len(s)]) *)
Fixpoint str_take (n : nat) (s : string) : string :=
  match n, s with
  | S n', String c r => String c (str_take n' r)
  | _, _ => EmptyString
  end.

(** [s[a:b]] *)
Definition slice (s : string) (a b : nat) : string :=
  str_take (b - a) (str_drop a s).

(** [s[i] == c]; an index outside the string compares false (the code
    guards each such read by a bound check or a preceding length test). *)
Definition byte_is (s : string) (i : nat) (c : ascii) : bool :=
  match String.get i s with
  | Some x => Ascii.eqb x c
  | None => false
  end.

(** [strings.HasPrefix(s, prefix)] *)
Definition HasPrefix (s prefix : string) : bool :=
  String.eqb (str_take (len prefix) s) prefix.

(** [strings.HasSuffix(s, suffix)] *)
Definition HasSuffix (s suffix : string) : bool :=
  (len suffix <=? len s) && String.eqb (str_drop (len s - len suffix) s) suffix.

(** [strings.Contains(s, string(c))] / [bytes.Contains(s, []byte{c})] *)
Fixpoint ContainsByte (s : string) (c : ascii) : bool :=
  match s with
  | EmptyString => false
  | String x r => Ascii.eqb x c || ContainsByte r c
  end.

(** [bytes.IndexByte(s, c)]; [None] stands for Go's [-1]. *)
Fixpoint IndexByte (s : string) (c : ascii) : option nat :=
  match s with
  | EmptyString => None
  | String x r => if Ascii.eqb x c then Some 0 else S <$> IndexByte r c
  end.

(** [strings.LastIndex(s, string(c))]; [None] stands for Go's [-1]. *)
Fixpoint LastIndexByte (s : string) (c : ascii) : option nat :=
  match s with
  | EmptyString => None
  | String x r =>
      match LastIndexByte r c with
      | Some i => Some (S i)
      | None => if Ascii.eqb x c then Some 0 else None
      end
  end.

(** [bytes.Cut(s, []byte{c})] and [strings.Cut(s, string(c))]:
    [(before, after, found)]. *)
Fixpoint Cut (s : string) (c : ascii) : string * string * bool :=
  match s with
  | EmptyString => (EmptyString, EmptyString, false)
  | String x r =>
      if Ascii.eqb x c then (EmptyString, r, true)
      else let '(before, after, found) := Cut r c in (String x before, after, found)
  end.

(** [strings.Split(s, "/")] *)
Fixpoint splitSlash (s : string) : list string :=
  match s with
  | EmptyString => [EmptyString]
  | String x r =>
      if Ascii.eqb x "/"%char then EmptyString :: splitSlash r
      else match splitSlash r with
           | h :: t => String x h :: t
           | [] => [String x EmptyString]
           end
  end.

(** ** Path normalizer: [normalizePath] *)

(** [for start < len(path) && path[start] == '/' { start++ }] *)
Fixpoint skipSlashes (fuel : nat) (path : string) (start : nat) : nat :=
  match fuel with
  | 0 => start
  | S fuel' =>
      if (start <? len path) && byte_is path start "/"
      then skipSlashes fuel' path (S start)
      else start
  end.

(** [for end < len(path) && path[end] != '/' { end++ }] *)
Fixpoint skipComponent (fuel : nat) (path : string) (end_ : nat) : nat :=
  match fuel with
  | 0 => end_
  | S fuel' =>
      if (end_ <? len path) && negb (byte_is path end_ "/")
      then skipComponent fuel' path (S end_)
      else end_
  end.

(** The outer loop [for start, end := 0, 0; end < len(path); start = end + 1].
    The outer [None] means that the fuel ran out; the inner [None] is the
    early [return] with [ok == false]. *)
Fixpoint normalizeLoop (fuel : nat) (path : string) (start end_ : nat)
    (newPath : list string) : option (option (list string)) :=
  if end_ <? len path then
    match fuel with
    | 0 => None
    | S fuel' =>
        let start := skipSlashes (len path) path start in
        let end_ := skipComponent (len path) path start in
        let component := slice path start end_ in
        if String.eqb component ".." then
          if length newPath =? 0 then Some None
          else normalizeLoop fuel' path (end_ + 1) end_
                 (take (length newPath - 1) newPath)
        else if negb (String.eqb component ".") then
          normalizeLoop fuel' path (end_ + 1) end_ (newPath ++ [component])
        else normalizeLoop fuel' path (end_ + 1) end_ newPath
    end
  else Some (Some newPath).

(** [for i := range newPath { out += "/" + newPath[i] }] *)
Definition flatten (newPath : list string) : string :=
  fold_left (fun out c => out +:+ "/" +:+ c) newPath "".

(** [normalizePath(path) (out string, ok bool)]: [None] is [ok == false]. *)
Definition normalizePath (path : string) : option string :=
  match normalizeLoop (S (len path)) path 0 0 [] with
  | Some (Some newPath) => Some (flatten newPath)
  | Some None => None
  | None => None
  end.

(** The specification's view of a path: its non-empty [/]-separated
    segments (runs of [/] collapse), and whether walking them pops past the
    root. [depth] is the number of segments currently kept. *)
Definition segments (p : string) : list string :=
  filter (λ c, c ≠ "") (splitSlash p).

Fixpoint popsPastRoot (segs : list string) (depth : nat) : bool :=
  match segs with
  | [] => false
  | c :: rest =>
      if String.eqb c ".." then
        match depth with
        | 0 => true
        | S d => popsPastRoot rest d
        end
      else if String.eqb c "." then popsPastRoot rest depth
      else popsPastRoot rest (S depth)
  end.

(** A segment that the normalizer may keep: it holds no [/] and is neither
    [.] nor [..]. *)
Definition segment_ok (c : string) : Prop :=
  ContainsByte c "/" = false ∧ c ≠ "." ∧ c ≠ "..".

(** ** Status codes and response errors *)

Definition statusCode := Z.

Definition okStatus : statusCode := 200%Z.
Definition badRequestStatus : statusCode := 400%Z.
Definition forbiddenStatus : statusCode := 403%Z.
Definition fileNotFoundStatus : statusCode := 404%Z.
Definition internalServerErrorStatus : statusCode := 500%Z.

Record responseError := { status : statusCode; message : string }.

Definition badRequestError : responseError :=
  {| status := badRequestStatus; message := "Bad request." |}.
Definition fileNotFoundError : responseError :=
  {| status := fileNotFoundStatus; message := "File not found." |}.
Definition forbiddenError : responseError :=
  {| status := forbiddenStatus; message := "Forbidden." |}.
Definition internalServerErrorError : responseError :=
  {| status := internalServerErrorStatus; message := "Internal server error." |}.

(** ** Request reader: [readRequest] *)

Definition NUL : ascii := "000"%char.
Definition TAB : ascii := "009"%char.
Definition LF : ascii := "010"%char.
Definition CR : ascii := "013"%char.

Definition maxRequestSize : nat := 16384.
Definition readChunkSize : nat := 4096.

(** One call of [reader.Read(buf)]: the [n] bytes [buf[:n]] it delivered,
    or an error. [buf] has [readChunkSize] bytes, so a delivered chunk is
    never longer than that. *)
Inductive readResult :=
  | ReadData (chunk : string)
  | ReadErr.

Definition chunk_ok (r : readResult) : Prop :=
  match r with
  | ReadData chunk => len chunk ≤ readChunkSize
  | ReadErr => True
  end.

Inductive requestError :=
  | ConnError       (* the error of [reader.Read], returned as it is *)
  | BadRequest      (* [fmt.Errorf("bad request")] *)
  | RequestTooBig.  (* [fmt.Errorf("request too big")] *)

(** The loop [for len(requestBuf) < maxRequestSize] of [readRequest]; the
    connection is the list of the results of its successive reads, and a
    connection that has nothing more to deliver ends in an error (end of
    file or the read deadline). *)
Fixpoint readLoop (reads : list readResult) (requestBuf : string)
    : string + requestError :=
  if len requestBuf <? maxRequestSize then
    match reads with
    | [] => inr ConnError
    | ReadErr :: _ => inr ConnError
    | ReadData chunk :: reads' =>
        if ContainsByte chunk NUL then inr BadRequest
        else
          let '(before, _, foundLF) := Cut chunk LF in
          let requestBuf := requestBuf +:+ before in
          if foundLF then
            match IndexByte requestBuf CR with
            | Some crIndex =>
                let lastByte := len requestBuf - 1 in
                if negb (crIndex =? lastByte) then inr BadRequest
                else inl (str_take lastByte requestBuf)
            | None => inl requestBuf
            end
          else readLoop reads' requestBuf
    end
  else inr RequestTooBig.

Definition readRequest (reads : list readResult) : string + requestError :=
  readLoop reads "".

(** ** Request splitter: [splitRequest] *)

Definition splitRequest (request : string) : string * string * string * string :=
  let '(selectorBytes, searchBytes, _) := Cut request TAB in
  let '(searchBytes, _, _) := Cut searchBytes TAB in
  let '(pathBytes, queryBytes, _) := Cut selectorBytes "?" in
  (selectorBytes, pathBytes, queryBytes, searchBytes).

(** ** The file system and [getStats] *)

(** [fs.FileMode]: a 32-bit word, the type bits above the permission bits. *)
Definition FileMode := Z.
Definition ModeDir : FileMode := Z.shiftl 1 31.
Definition ModeSymlink : FileMode := Z.shiftl 1 27.
Definition ModeDevice : FileMode := Z.shiftl 1 26.
Definition ModeNamedPipe : FileMode := Z.shiftl 1 25.
Definition ModeSocket : FileMode := Z.shiftl 1 24.
Definition ModeCharDevice : FileMode := Z.shiftl 1 21.
Definition ModeIrregular : FileMode := Z.shiftl 1 19.
Definition ModeType : FileMode :=
  Z.lor ModeDir (Z.lor ModeSymlink (Z.lor ModeNamedPipe (Z.lor ModeSocket
    (Z.lor ModeDevice (Z.lor ModeCharDevice ModeIrregular))))).

Definition IsRegular (m : FileMode) : bool := (Z.land m ModeType =? 0)%Z.
Definition IsDir (m : FileMode) : bool := negb (Z.land m ModeDir =? 0)%Z.

(** The error of [os.Stat] and [os.Open], up to [os.IsNotExist]. *)
Inductive os_error := ErrNotExist | ErrOther.

Definition os_IsNotExist (e : os_error) : bool :=
  match e with ErrNotExist => true | ErrOther => false end.

(** [filepath.Ext(path)]: scanning from the right end, the suffix starting
    at the first ['.'] met before any ['/']. [extScan] is [None] when the
    whole string holds neither. *)
Fixpoint extScan (s : string) : option string :=
  match s with
  | EmptyString => None
  | String x r =>
      match extScan r with
      | Some e => Some e
      | None =>
          if Ascii.eqb x "." then Some (String x r)
          else if Ascii.eqb x "/" then Some EmptyString
          else None
      end
  end.

Definition Ext (path : string) : string := default "" (extScan path).

Definition cgiExt : string := ".cgi".
Definition indexCgiPath : string := "/index.cgi".
Definition indexPaths : list string := [indexCgiPath; "/index.map"].

(** [excluded[ext]] on a [map[string]bool]: a missing key reads [false]. *)
Definition isExcluded (excluded : gmap string bool) (ext : string) : bool :=
  default false (excluded !! ext).

Section Resolver.
(** The result of [os.Stat] on every path, and the global [excluded]. *)
Variable os_Stat : string → FileMode + os_error.
Variable excluded : gmap string bool.

(** [getStats(path) (isFile, isDir, isCGI bool, responseErr *responseError)] *)
Definition getStats (path : string) : bool * bool * bool * option responseError :=
  match os_Stat path with
  | inr e =>
      (false, false, false,
       Some (if os_IsNotExist e then fileNotFoundError else forbiddenError))
  | inl mode =>
      if IsRegular mode then
        if isExcluded excluded (Ext path) then
          (false, false, false, Some forbiddenError)
        else
          let isCGI := HasSuffix path cgiExt in
          let needPerm := (if isCGI then 5 else 4)%Z in
          (true, false, isCGI,
           if negb (Z.land mode needPerm =? needPerm)%Z
           then Some forbiddenError else None)
      else if IsDir mode then
        (false, true, false,
         if negb (Z.land mode 5 =? 5)%Z then Some forbiddenError else None)
      else
        (false, false, false,
         if negb (Z.land mode 4 =? 4)%Z then Some forbiddenError else None)
  end.

(** [path] stats as a regular file that is not excluded: the [isFile]
    of [getStats]. *)
Definition statsAsFile (path : string) : Prop := (getStats path).1.1.1 = true.

(** [canServeFile(path)] *)
Definition canServeFile (path : string) : bool :=
  let '(isFile, _, _, e) := getStats path in
  isFile && bool_decide (e = None).

(** The variables of [splitScriptPathAndPathInfo] that its loop updates. *)
Record walk := {
  w_n : nat;
  w_split : nat;
  w_fsPath : string;
  w_err : option responseError
}.

(** One round of [for _, indexPath := range indexPaths] *)
Definition probeIndex (curPath : string) (w : walk) (indexPath : string) : walk :=
  let pathWithIndex := curPath +:+ indexPath in
  let '(isFile, _, _, pathErr) := getStats pathWithIndex in
  if bool_decide (pathErr = None) && isFile
  then {| w_n := w_n w; w_split := w_n w; w_fsPath := pathWithIndex; w_err := None |}
  else w.

(** [for n++; n != len(path) && path[n] != '/'; n++ {}], entered after
    the [n++] of its init statement. *)
Fixpoint nextSlash (fuel : nat) (path : string) (n : nat) : nat :=
  match fuel with
  | 0 => n
  | S fuel' =>
      if negb (n =? len path) && negb (byte_is path n "/")
      then nextSlash fuel' path (S n)
      else n
  end.

(** The loop of [splitScriptPathAndPathInfo]; [None] means that the fuel
    ran out, any [Some] is the state at the [break]. *)
Fixpoint walkPath (fuel : nat) (path : string) (w : walk) : option walk :=
  match fuel with
  | 0 => None
  | S fuel' =>
      let n := w_n w in
      let curPath := str_take n path in
      let '(isFile, isDir, _, pathErr) := getStats curPath in
      if isFile then
        Some {| w_n := n; w_split := n; w_fsPath := curPath; w_err := w_err w |}
      else if negb (bool_decide (pathErr = None)) || negb isDir then Some w
      else
        let w := fold_left (probeIndex curPath) indexPaths w in
        if n =? len path then Some w
        else
          let n := nextSlash (len path) path (S n) in
          let w := {| w_n := n; w_split := w_split w;
                      w_fsPath := w_fsPath w; w_err := w_err w |} in
          if (n =? len path) && byte_is path (n - 1) "/" then Some w
          else walkPath fuel' path w
  end.

(** The four results of [splitPath] and [splitScriptPathAndPathInfo]. *)
Record resolved := {
  fsPath : string;
  scriptName : string;
  pathInfo : string;
  err : option responseError
}.

(** [splitScriptPathAndPathInfo(path, startLength)]; [None] only when the
    fuel of the loop runs out (it never does, see
    [splitScriptPathAndPathInfo_total]). The slices are in range when
    [startLength <= len(path)], which is how [splitPath] calls it. *)
Definition splitScriptPathAndPathInfo (path : string) (startLength : nat)
    : option resolved :=
  let '(isFile, _, _, pathErr) := getStats path in
  if bool_decide (pathErr = None) && isFile then
    Some {| fsPath := path; scriptName := str_drop startLength path;
            pathInfo := ""; err := None |}
  else if isExcluded excluded cgiExt then
    Some {| fsPath := ""; scriptName := ""; pathInfo := "";
            err := Some fileNotFoundError |}
  else
    w ← walkPath (S (len path)) path
           {| w_n := startLength; w_split := startLength;
              w_fsPath := ""; w_err := Some fileNotFoundError |};
    Some {| fsPath := w_fsPath w;
            scriptName := slice path startLength (w_split w);
            pathInfo := str_drop (w_split w) path;
            err := w_err w |}.
End Resolver.

(** ** [url.PathUnescape] and [splitPath] *)

(** [ishex] and [unhex] of [net/url] *)
Definition ishex (c : ascii) : bool :=
  let n := nat_of_ascii c in
  ((48 <=? n) && (n <=? 57)) || ((97 <=? n) && (n <=? 102)) || ((65 <=? n) && (n <=? 70)).

Definition unhex (c : ascii) : nat :=
  let n := nat_of_ascii c in
  if (48 <=? n) && (n <=? 57) then n - 48
  else if (97 <=? n) && (n <=? 102) then n - 97 + 10
  else if (65 <=? n) && (n <=? 70) then n - 65 + 10
  else 0.

(** [url.PathUnescape(s)]: every ['%'] must be followed by two hexadecimal
    digits and is replaced with them by the byte they denote; any other
    byte (also ['+']) is kept. [None] is the [EscapeError]. *)
Fixpoint PathUnescape (s : string) : option string :=
  match s with
  | EmptyString => Some EmptyString
  | String c r =>
      if Ascii.eqb c "%" then
        match r with
        | String a (String b r') =>
            if ishex a && ishex b
            then String (ascii_of_nat (unhex a * 16 + unhex b)) <$> PathUnescape r'
            else None
        | _ => None
        end
      else String c <$> PathUnescape r
  end.

Section SplitPath.
Variable os_Stat : string → FileMode + os_error.
Variable excluded : gmap string bool.

(** [splitPath(rootPath, path)] *)
Definition splitPath (rootPath path : string) : option resolved :=
  let failed e :=
    Some {| fsPath := ""; scriptName := ""; pathInfo := ""; err := Some e |} in
  match PathUnescape path with
  | None => failed badRequestError
  | Some path =>
      if ContainsByte path NUL then failed badRequestError
      else
        match normalizePath path with
        | None => failed forbiddenError
        | Some path =>
            splitScriptPathAndPathInfo os_Stat excluded
              (rootPath +:+ path) (len rootPath)
        end
  end.
End SplitPath.

(** ** Configuration *)

(** The [value] of a [configOption]: a [*int] or a [*string]. *)
Inductive configValue :=
  | IntValue (v : Z)
  | StringValue (v : string).

(** [fmt.Sprintf("%d", v)] *)
Definition sprintf_d (v : Z) : string := NilZero.string_of_int (Z.to_int v).

(** [configString(name)] *)
Definition configString (configMap : gmap string configValue) (name : string) : string :=
  match configMap !! name with
  | Some (IntValue u) => sprintf_d u
  | Some (StringValue u) => u
  | None => "unsupport type"
  end.

(** ** Responses, [getResponseFromPath] and [runCGI] *)

Definition serverSoftwareName : string := "Thirteen".
Definition serverSoftwareVersion : string := "0.0.0".
Definition serverSoftware : string :=
  serverSoftwareName +:+ "/" +:+ serverSoftwareVersion.
Definition safePath : string := "/usr/bin:/bin".

(** [exec.Cmd], as [exec.Command] and [runCGI] fill it: [Args] holds the
    command name followed by the positional arguments. *)
Record Cmd := {
  Path : string;
  Args : list string;
  Dir : string;
  Env : list string
}.

(** The [io.Reader] of a response. *)
Inductive responseReader :=
  | FileReader (path : string)      (* the opened [*os.File] *)
  | StdoutPipe (cmd : Cmd)          (* the pipe of [cmd.StdoutPipe()] *)
  | StringReader (s : string).      (* [strings.NewReader(s)] *)

Record response := {
  resp_reader : responseReader;
  resp_status : statusCode;
  resp_cmd : option Cmd
}.

(** What [cmd.StdoutPipe()] and [cmd.Start()] do with a command. *)
Inductive spawnResult := PipeFailed | StartFailed | Started.

(** [makeDirEntry(gtype, user, host, port)]:
    [fmt.Sprintf("%c%s\t\t%s\t%s\r\n.\r\n", ...)] *)
Definition makeDirEntry (gtype : ascii) (user host port : string) : string :=
  String gtype
    (user +:+ String TAB (String TAB
       (host +:+ String TAB
          (port +:+ String CR (String LF (String "." (String CR (String LF "")))))))).

Section Responses.
Variable configMap : gmap string configValue.
Variable docRoot : string.
(** [getUptime()], [requestCount.Load()] and [bytesTransferred.Load()] *)
Variables uptime requestCount bytesTransferred : Z.
Variable os_Stat : string → FileMode + os_error.
Variable excluded : gmap string bool.
(** [os.Open(fsPath)]: [None] when it succeeds. *)
Variable os_Open : string → option os_error.
Variable spawn : Cmd → spawnResult.

(** [makeErrorResponse(e)] *)
Definition makeErrorResponse (e : responseError) : response :=
  {| resp_reader :=
       StringReader (makeDirEntry "3" (message e)
                       (configString configMap "serverhost")
                       (configString configMap "serverport"));
     resp_status := status e;
     resp_cmd := None |}.

(** The command that [runCGI] builds before it starts it. [conn] is
    [Some addr] for a [*net.TCPConn] whose [RemoteAddr().String()] is
    [addr]. *)
Definition cgiCommand (conn : option string)
    (selector fsPath scriptName pathInfo query search : string) : Cmd :=
  let cmdDir :=
    match LastIndexByte fsPath "/" with
    | Some lastSlash => str_take lastSlash fsPath
    | None => docRoot
    end in
  let remote :=
    match conn with
    | Some addr => let '(remoteAddr, remotePort, _) := Cut addr ":" in
                   (remoteAddr, remotePort)
    | None => ("", "")
    end in
  let remoteAddr := remote.1 in
  let remotePort := remote.2 in
  let pathTranslated :=
    if negb (String.eqb pathInfo "") then docRoot +:+ pathInfo else "" in
  {| Path := fsPath;
     Args := [fsPath;
              search;
              query;
              configString configMap "serverhost";
              configString configMap "serverport";
              pathInfo;
              selector];
     Dir := cmdDir;
     Env := [
       "PATH=" +:+ safePath;
       "GATEWAY_INTERFACE=CGI/1.1";
       "SERVER_PROTOCOL=GOPHER";
       "SERVER_SOFTWARE=" +:+ serverSoftware;
       "REQUEST_METHOD=GET";
       "PATH_INFO=" +:+ pathInfo;
       "PATH_TRANSLATED=" +:+ pathTranslated;
       "SERVER_NAME=" +:+ configString configMap "serverhost";
       "SERVER_HOST=" +:+ configString configMap "serverhost";
       "SERVER_PORT=" +:+ configString configMap "serverport";
       "QUERY_STRING=" +:+ query;
       "REMOTE_ADDR=" +:+ remoteAddr;
       "REMOTE_HOST=" +:+ remoteAddr;
       "REMOTE_PORT=" +:+ remotePort;
       "SCRIPT_NAME=" +:+ scriptName;
       "SCRIPT_FILENAME=" +:+ fsPath;
       "GOPHER_SCRIPT_FILENAME=" +:+ fsPath;
       "DOCUMENT_ROOT=" +:+ docRoot;
       "GOPHER_DOCUMENT_ROOT=" +:+ docRoot;
       "SERVER_DESCRIPTION=" +:+ configString configMap "desc";
       "SEARCHREQUEST=" +:+ search;
       "X_GOPHER_SEARCH=" +:+ search;
       "QUERY_STRING_SEARCH=" +:+ search;
       "QUERY_STRING_URL=" +:+ query;
       "SELECTOR=" +:+ selector;
       "GOPHER_DOCUMENT_SELECTOR=" +:+ selector;
       "REQUEST=" +:+ scriptName +:+ pathInfo;
       "THIRTEEN_UPTIME=" +:+ sprintf_d uptime;
       "THIRTEEN_REQUESTS=" +:+ sprintf_d requestCount;
       "THIRTEEN_BYTES=" +:+ sprintf_d bytesTransferred] |}.

(** [runCGI(conn, selector, fsPath, scriptName, pathInfo, query, search)] *)
Definition runCGI (conn : option string)
    (selector fsPath scriptName pathInfo query search : string) : response :=
  let cmd := cgiCommand conn selector fsPath scriptName pathInfo query search in
  match spawn cmd with
  | PipeFailed => makeErrorResponse internalServerErrorError
  | StartFailed => makeErrorResponse internalServerErrorError
  | Started =>
      {| resp_reader := StdoutPipe cmd; resp_status := okStatus;
         resp_cmd := Some cmd |}
  end.

(** [getResponseFromPath(conn, selector, fsPath, scriptName, pathInfo, query, search)] *)
Definition getResponseFromPath (conn : option string)
    (selector fsPath scriptName pathInfo query search : string) : response :=
  match os_Open fsPath with
  | Some e =>
      if os_IsNotExist e then makeErrorResponse fileNotFoundError
      else makeErrorResponse forbiddenError
  | None =>
      if HasSuffix fsPath cgiExt then
        runCGI conn selector fsPath scriptName pathInfo query search
      else if negb (String.eqb pathInfo "") then
        makeErrorResponse fileNotFoundError
      else
        {| resp_reader := FileReader fsPath; resp_status := okStatus;
           resp_cmd := None |}
  end.

(** [getResponseForRequest(conn, selector, path, query, search)]; [None]
    only if the resolver ran out of fuel. *)
Definition getResponseForRequest (conn : option string)
    (selector path query search : string) : option response :=
  r ← splitPath os_Stat excluded docRoot path;
  match err r with
  | Some e => Some (makeErrorResponse e)
  | None =>
      Some (getResponseFromPath conn selector (fsPath r) (scriptName r)
              (pathInfo r) query search)
  end.

(** The response that [handleConn] streams: any error of [readRequest]
    becomes the [badRequestError] response. *)
Definition handleConnResponse (conn : option string) (reads : list readResult)
    : option response :=
  match readRequest reads with
  | inr _ => Some (makeErrorResponse badRequestError)
  | inl request =>
      let '(selector, path, query, search) := splitRequest request in
      getResponseForRequest conn selector path query search
  end.
End Responses.

(** ** The accept loop and the connection semaphore *)

(** Where the accept loop of [main] stands: before [connChan <- struct{}{}],
    or between that send and the return of [listener.Accept()]. *)
Inductive acceptPc := AtSend | AtAccept.

(** A goroutine [handleConn]: running, with its deferred [<-connChan]
    pending, or returned, after that receive. *)
Inductive handlerPc := Running | Returned.

#[global] Instance handlerPc_eq_dec : EqDecision handlerPc.
Proof. solve_decision. Defined.

Record server := {
  chanLen : nat;            (* [len(connChan)], the tokens in the channel *)
  sent : nat;               (* the sends [connChan <- struct{}{}] done so far *)
  accept_pc : acceptPc;
  handlers : list handlerPc (* every goroutine started so far *)
}.

Definition initial : server :=
  {| chanLen := 0; sent := 0; accept_pc := AtSend; handlers := [] |}.

(** The interleavings of the accept loop and the handlers; [maxConn] is the
    capacity of [connChan = make(chan struct{}, maxConn)]. A send on a full
    channel and a receive on an empty one block, that is, have no step. *)
Inductive step (maxConn : nat) : server → server → Prop :=
  | step_send s :
      (* [connChan <- struct{}{}] *)
      accept_pc s = AtSend →
      chanLen s < maxConn →
      step maxConn s
        {| chanLen := S (chanLen s); sent := S (sent s); accept_pc := AtAccept;
           handlers := handlers s |}
  | step_accept s :
      (* [conn, err := listener.Accept()] with [err == nil]; [go handleConn(conn)] *)
      accept_pc s = AtAccept →
      step maxConn s
        {| chanLen := chanLen s; sent := sent s; accept_pc := AtSend;
           handlers := handlers s ++ [Running] |}
  | step_accept_error s :
      (* [err != nil]: [continue], the token stays in the channel *)
      accept_pc s = AtAccept →
      step maxConn s
        {| chanLen := chanLen s; sent := sent s; accept_pc := AtSend;
           handlers := handlers s |}
  | step_return s i :
      (* [handleConn] returns: [defer func() { _ = <-connChan }()] *)
      handlers s !! i = Some Running →
      0 < chanLen s →
      step maxConn s
        {| chanLen := chanLen s - 1; sent := sent s; accept_pc := accept_pc s;
           handlers := <[i := Returned]> (handlers s) |}.

Inductive reachable (maxConn : nat) : server → Prop :=
  | reachable_initial : reachable maxConn initial
  | reachable_step s s' :
      reachable maxConn s → step maxConn s s' → reachable maxConn s'.

(** The handlers that hold a slot of the semaphore: those still running. *)
Definition holders (s : server) : nat :=
  length (filter (λ h, h = Running) (handlers s)).

(** The handlers that have returned. *)
Definition returnedCount (s : server) : nat :=
  length (filter (λ h, h = Returned) (handlers s)).

(** The tokens that have been received from [connChan] so far: those sent
    that are no longer in it. *)
Definition received (s : server) : nat := sent s - chanLen s.

(** ** Concrete connections *)

Fixpoint str_repeat (c : ascii) (n : nat) : string :=
  match n with
  | 0 => ""
  | S n' => String c (str_repeat c n')
  end.

(** A client whose request line is 20 478 bytes long and arrives in five
    reads: 16 383 bytes in four reads, then 4 095 bytes and the line feed
    in a fifth. *)
Definition longLineReads : list readResult :=
  [ReadData (str_repeat "a" 4096);
   ReadData (str_repeat "a" 4096);
   ReadData (str_repeat "a" 4096);
   ReadData (str_repeat "a" 4095);
   ReadData (str_repeat "a" 4095 +:+ String LF "")].

(** ** Concrete file systems *)

(** [os.Stat] over a finite tree given as the list of its entries with their
    modes: a trailing [/] is accepted on a directory only, a path that runs
    through a regular file fails with [ENOTDIR], anything else that is not
    listed does not exist. *)
Definition stripSlash (path : string) : string :=
  if HasSuffix path "/" then str_take (len path - 1) path else path.

Definition statTree (tree : list (string * FileMode)) (path : string)
    : FileMode + os_error :=
  let find p := snd <$> list_find (λ e, fst e = p) tree in
  match find (stripSlash path) with
  | Some (_, mode) =>
      if HasSuffix path "/" && negb (IsDir mode) then inr ErrOther else inl mode
  | None =>
      if existsb (λ e, negb (IsDir (snd e)) && HasPrefix path (fst e +:+ "/")) tree
      then inr ErrOther else inr ErrNotExist
  end.

Definition dirMode (perm : Z) : FileMode := Z.lor ModeDir perm.

(** The tree [tests/] of [main_test.go] (octal 755 is 493, 644 is 420). *)
Definition testsTree : list (string * FileMode) :=
  [("tests", dirMode 493);
   ("tests/index.map", 420%Z);
   ("tests/text.txt", 420%Z);
   ("tests/foo", dirMode 493);
   ("tests/foo/text.txt", 420%Z);
   ("tests/foo/bar", dirMode 493);
   ("tests/foo/bar/index.cgi", 493%Z);
   ("tests/foo/bar/cgi.cgi", 493%Z)].

(** A document root that holds one CGI script and no index file. *)
Definition scriptTree : list (string * FileMode) :=
  [("srv", dirMode 493); ("srv/a.cgi", 493%Z)].

(** A document root that holds a backup file, served with [-exclude bak]. *)
Definition backupTree : list (string * FileMode) :=
  [("srv", dirMode 493); ("srv/secret.bak", 420%Z)].

Definition excludeBak : gmap string bool := {[ ".bak" := true ]}.

(** A document root that holds both index files. *)
Definition bothIndexTree : list (string * FileMode) :=
  [("srv", dirMode 493); ("srv/index.cgi", 493%Z); ("srv/index.map", 420%Z)].

(** The defaults of [configMap], with [serverport] set to the listen port
    as [main] does when it is 0. *)
Definition defaultConfig : gmap string configValue :=
  {[ "desc" := StringValue "";
     "listen" := StringValue "70";
     "maxconn" := IntValue 1000;
     "root" := StringValue "/srv/gopher";
     "rtmo" := IntValue 60;
     "serverhost" := StringValue "localhost";
     "serverport" := IntValue 70;
     "user" := StringValue "";
     "wtmo" := IntValue 300 ]}.

Definition testSplitPath (path : string) : option resolved :=
  splitPath (statTree testsTree) ∅ "tests" path.

Definition resolvedOk (fsPath scriptName pathInfo : string) : option resolved :=
  Some {| fsPath := fsPath; scriptName := scriptName; pathInfo := pathInfo;
          err := None |}.

(** ** The normalizer on the pieces of [strings.Split] *)

(** What the body of the loop of [normalizePath] does with one component. *)
Definition applyComponent (newPath : list string) (component : string)
    : option (list string) :=
  if String.eqb component ".." then
    if length newPath =? 0 then None
    else Some (take (length newPath - 1) newPath)
  else if negb (String.eqb component ".") then Some (newPath ++ [component])
  else Some newPath.

(** The components that the loop meets are the pieces of
    [strings.Split(path, "/")], of which an empty one counts only when it is
    the last. *)
Fixpoint walkTokens (tokens : list string) (newPath : list string)
    : option (list string) :=
  match tokens with
  | [] => Some newPath
  | c :: rest =>
      match rest with
      | [] => applyComponent newPath c
      | _ :: _ =>
          if String.eqb c "" then walkTokens rest newPath
          else newPath' ← applyComponent newPath c; walkTokens rest newPath'
      end
  end.

Definition normalizeTokens (path : string) : option string :=
  if String.eqb path "" then Some ""
  else flatten <$> walkTokens (splitSlash path) [].

(** ** Configuration: [configInt], [setConfigInt], [setConfigString] *)

(** [configInt(name)] *)
Definition configInt (configMap : gmap string configValue) (name : string) : Z :=
  match configMap !! name with
  | Some (IntValue u) => u
  | _ => 0%Z
  end.

(** [setConfigInt(name, value)]: the assignment through the [*int] of the
    option, when it holds one. *)
Definition setConfigInt (configMap : gmap string configValue) (name : string)
    (value : Z) : gmap string configValue :=
  match configMap !! name with
  | Some (IntValue _) => <[name := IntValue value]> configMap
  | _ => configMap
  end.

(** [setConfigString(name, value)] *)
Definition setConfigString (configMap : gmap string configValue) (name : string)
    (value : string) : gmap string configValue :=
  match configMap !! name with
  | Some (StringValue _) => <[name := StringValue value]> configMap
  | _ => configMap
  end.

(** [if serverport := configInt("serverport"); serverport == 0
      { setConfigInt("serverport", port) }] of [main] *)
Definition adoptListenPort (configMap : gmap string configValue) (port : Z)
    : gmap string configValue :=
  if (configInt configMap "serverport" =? 0)%Z
  then setConfigInt configMap "serverport" port
  else configMap.

(** ** The flag [-exclude] *)

(** The function that [main] gives to [flag.Func("exclude", ...)]: [None] is
    the error, [Some] the map [excluded] after the call. *)
Definition excludeFlag (excluded : gmap string bool) (ext : string)
    : option (gmap string bool) :=
  if String.eqb ext "" then Some excluded
  else
    let ext := if negb (HasPrefix ext ".") then "." +:+ ext else ext in
    if ContainsByte (str_drop 1 ext) "." then None
    else Some (<[ext := true]> excluded).

(** An extension as [excluded] is meant to hold it: a dot followed by bytes
    that are no dot. *)
Definition extension_ok (ext : string) : Prop :=
  HasPrefix ext "." = true ∧ ContainsByte (str_drop 1 ext) "." = false.

(** The bytes of a list of chunks, one after the other. *)
Definition str_concat (chunks : list string) : string :=
  foldr String.append "" chunks.

(** ** The response loop of [handleConn] *)

(** [uint64] arithmetic *)
Definition wrap_uint64 (z : Z) : Z := (z mod 2 ^ 64)%Z.

(** The loop that copies the response to the connection. [reads] holds what
    the successive [response.Read(buf)] deliver (its end, or an empty
    delivery, is a read of 0 bytes); [conn_Write k b] is the result [(n, err
    != nil)] of the [k]-th [conn.Write(b)]. The result is
    [requestInfo.transferred] and the bytes that the connection took. *)
Fixpoint streamLoop (conn_Write : nat → string → nat * bool) (k : nat)
    (reads : list string) (transferred : Z) (sent : string) : Z * string :=
  match reads with
  | [] => (transferred, sent)
  | buf :: reads' =>
      if len buf =? 0 then (transferred, sent)
      else
        let '(n, failed) := conn_Write k buf in
        let transferred := wrap_uint64 (transferred + Z.of_nat n) in
        let sent := sent +:+ str_take n buf in
        if failed || (n =? 0) then (transferred, sent)
        else streamLoop conn_Write (S k) reads' transferred sent
  end.

(** What the reader of a response has to deliver before its first read of 0
    bytes. *)
Fixpoint responseBody (reads : list string) : string :=
  match reads with
  | [] => ""
  | buf :: reads' => if len buf =? 0 then "" else buf +:+ responseBody reads'
  end.

(** ** [gopher-ls]: escaping of names and selectors *)

(** [strings.ReplaceAll(s, string(from), to)] *)
Fixpoint ReplaceAllByte (s : string) (from : ascii) (to : string) : string :=
  match s with
  | EmptyString => EmptyString
  | String x r =>
      if Ascii.eqb x from then to +:+ ReplaceAllByte r from to
      else String x (ReplaceAllByte r from to)
  end.

(** The table [subs] of [main]: [(from, to, onlySelector)]. *)
Definition subs : list (ascii * string * bool) :=
  [("%"%char, "%25", false);
   ("?"%char, "%3F", true);
   (TAB, "%09", false);
   (CR, "%0D", false);
   (LF, "%0A", false)].

(** [for _, sub := range subs { ... }]: the name and the selector of one
    menu entry after the substitutions. *)
Definition escapeEntry (name selector : string) : string * string :=
  fold_left
    (λ '(name, selector) '(from, to, onlySelector),
       (if negb onlySelector then ReplaceAllByte name from to else name,
        ReplaceAllByte selector from to))
    subs (name, selector).

(** A string rewritten byte by byte. *)
Fixpoint mapBytes (f : ascii → string) (s : string) : string :=
  match s with
  | EmptyString => EmptyString
  | String x r => f x +:+ mapBytes f r
  end.

(** What the substitutions of [subs] make of one byte of a selector
    ([onlySelector] ones included) or of a name. *)
Definition escapeByte (inSelector : bool) (x : ascii) : string :=
  fold_left
    (λ s '(from, to, onlySelector),
       if negb onlySelector || inSelector then ReplaceAllByte s from to else s)
    subs (String x "").

(** ** [gopher-ls]: [humanSize] *)

(** [int64] arithmetic *)
Definition wrap_int64 (z : Z) : Z := ((z + 2 ^ 63) mod 2 ^ 64 - 2 ^ 63)%Z.

(** The table of prefixes and multipliers of [humanSize]. *)
Definition sizePrefixes : list (ascii * Z) :=
  [("E"%char, 10 ^ 18); ("P"%char, 10 ^ 15); ("T"%char, 10 ^ 12);
   ("G"%char, 10 ^ 9); ("M"%char, 10 ^ 6); ("k"%char, 10 ^ 3)]%Z.

(** The loop of [humanSize] over the table: the size in tenths of the first
    unit that fits, and the prefix of that unit. *)
Fixpoint scaleSize (table : list (ascii * Z)) (size : Z) : Z * ascii :=
  match table with
  | [] => (size, " "%char)
  | (prefix, multiplier) :: table' =>
      let m10 := (multiplier ÷ 10)%Z in
      if (size >? multiplier - m10)%Z
      then ((wrap_int64 (wrap_int64 (size + m10) - 1) ÷ m10)%Z, prefix)
      else scaleSize table' size
  end.

(** [humanSize(size)] *)
Definition humanSize (size : Z) : string :=
  if (size <? 0)%Z then ""
  else if (size <? 1000)%Z then sprintf_d size +:+ "  B"
  else
    let '(size, prefix) := scaleSize sizePrefixes size in
    sprintf_d (size ÷ 10) +:+ "." +:+ sprintf_d (Z.rem size 10) +:+ " "
      +:+ String prefix "B".

(** ** Sorting the entries (cmd/gopher-ls) *)

(** [type gopherFileInfo]: the embedded [os.FileInfo] gives [ModTime] (an
    instant, here as a number) and [Size]; [Name] and [IsDir] are the methods
    of [gopherFileInfo] itself, which shadow those of the embedded value. *)
Module ls.

Record gopherFileInfo := {
  ModTime : Z;
  Size : Z;
  name : string;
  selector : string;
  isMap : bool;
}.

Definition Name (g : gopherFileInfo) : string := name g.
Definition IsDir (g : gopherFileInfo) : bool := isMap g.

End ls.

(** [byName(fileInfos)]: the function on two indices; [None] is the panic of
    an index out of range. *)
Definition byName (fileInfos : list ls.gopherFileInfo) (i j : nat) : option bool :=
  a ← fileInfos !! i; b ← fileInfos !! j;
  let aIsDir := ls.IsDir a in
  let bIsDir := ls.IsDir b in
  if negb (Bool.eqb aIsDir bIsDir) then Some aIsDir
  else Some (String.ltb (ls.Name a) (ls.Name b)).

(** [byModTime(fileInfos)] *)
Definition byModTime (fileInfos : list ls.gopherFileInfo) (i j : nat) : option bool :=
  a ← fileInfos !! i; b ← fileInfos !! j;
  let aIsDir := ls.IsDir a in
  let bIsDir := ls.IsDir b in
  if negb (Bool.eqb aIsDir bIsDir) then Some aIsDir
  else if aIsDir && bIsDir then Some (String.ltb (ls.Name a) (ls.Name b))
  else
    if (ls.ModTime a =? ls.ModTime b)%Z then Some (String.ltb (ls.Name a) (ls.Name b))
    else Some (ls.ModTime a <? ls.ModTime b)%Z.

(** [bySize(fileInfos)] *)
Definition bySize (fileInfos : list ls.gopherFileInfo) (i j : nat) : option bool :=
  a ← fileInfos !! i; b ← fileInfos !! j;
  let aIsDir := ls.IsDir a in
  let bIsDir := ls.IsDir b in
  if negb (Bool.eqb aIsDir bIsDir) then Some aIsDir
  else if aIsDir && bIsDir then Some (String.ltb (ls.Name a) (ls.Name b))
  else
    if (ls.Size a =? ls.Size b)%Z then Some (String.ltb (ls.Name a) (ls.Name b))
    else Some (ls.Size a <? ls.Size b)%Z.

(** [reverser(lessfn, fileInfos, rev)]: [rev != less(i, j)]. *)
Definition reverser (lessfn : list ls.gopherFileInfo → nat → nat → option bool)
    (fileInfos : list ls.gopherFileInfo) (rev : bool) (i j : nat) : option bool :=
  let less := lessfn fileInfos in
  b ← less i j; Some (xorb rev b).

(** The [switch sortBy] of [main]. *)
Definition sortFunc (sortBy : string)
    : list ls.gopherFileInfo → nat → nat → option bool :=
  if String.eqb sortBy "n" || String.eqb sortBy "name" then byName
  else if String.eqb sortBy "t" || String.eqb sortBy "time" then byModTime
  else if String.eqb sortBy "s" || String.eqb sortBy "size" then bySize
  else byName.

(* ===================================================================== *)
(** * Part II: properties *)
(* ===================================================================== *)

(** ** The cases of [main_test.go] *)

Example TestSplitRequest_Empty : splitRequest "" = ("", "", "", "").
Proof. reflexivity. Qed.
Example TestSplitRequest_Root : splitRequest "/" = ("/", "/", "", "").
Proof. reflexivity. Qed.
Example TestSplitRequest_Query :
  splitRequest "/script?query" = ("/script?query", "/script", "query", "").
Proof. reflexivity. Qed.
Example TestSplitRequest_Query_and_search :
  splitRequest ("/script?query" +:+ String TAB "search")
  = ("/script?query", "/script", "query", "search").
Proof. reflexivity. Qed.

Example TestSplitPath_Empty :
  testSplitPath "" = resolvedOk "tests/index.map" "" "".
Proof. vm_compute. reflexivity. Qed.
Example TestSplitPath_Root :
  testSplitPath "/" = resolvedOk "tests/index.map" "" "/".
Proof. vm_compute. reflexivity. Qed.
Example TestSplitPath_Text_file :
  testSplitPath "/text.txt" = resolvedOk "tests/text.txt" "/text.txt" "".
Proof. vm_compute. reflexivity. Qed.
Example TestSplitPath_Percent_encoding :
  testSplitPath "%2Ftext.txt" = resolvedOk "tests/text.txt" "/text.txt" "".
Proof. vm_compute. reflexivity. Qed.
Example TestSplitPath_Invalid_percent_encoding :
  err <$> testSplitPath "%2.text.txt" = Some (Some badRequestError).
Proof. vm_compute. reflexivity. Qed.
Example TestSplitPath_Contiguous_slashes :
  testSplitPath "///foo//text.txt" = resolvedOk "tests/foo/text.txt" "/foo/text.txt" "".
Proof. vm_compute. reflexivity. Qed.
Example TestSplitPath_Trailing_slash :
  testSplitPath "/foo/text.txt/" = resolvedOk "tests/foo/text.txt" "/foo/text.txt" "/".
Proof. vm_compute. reflexivity. Qed.
Example TestSplitPath_Contiguous_and_trailing_slashes :
  testSplitPath "///foo//text.txt/" = resolvedOk "tests/foo/text.txt" "/foo/text.txt" "/".
Proof. vm_compute. reflexivity. Qed.
Example TestSplitPath_CGI :
  testSplitPath "/foo/bar/cgi.cgi" = resolvedOk "tests/foo/bar/cgi.cgi" "/foo/bar/cgi.cgi" "".
Proof. vm_compute. reflexivity. Qed.
Example TestSplitPath_CGI_with_path_info :
  testSplitPath "/foo/bar/cgi.cgi/path/info"
  = resolvedOk "tests/foo/bar/cgi.cgi" "/foo/bar/cgi.cgi" "/path/info".
Proof. vm_compute. reflexivity. Qed.
Example TestSplitPath_Path_info :
  testSplitPath "/foo/bar/path/info" = resolvedOk "tests/foo/bar/index.cgi" "/foo/bar" "/path/info".
Proof. vm_compute. reflexivity. Qed.
Example TestSplitPath_Dot :
  testSplitPath "/foo/./bar" = resolvedOk "tests/foo/bar/index.cgi" "/foo/bar" "".
Proof. vm_compute. reflexivity. Qed.
Example TestSplitPath_Dot_at_the_end :
  testSplitPath "/foo/text.txt/bar/." = resolvedOk "tests/foo/text.txt" "/foo/text.txt" "/bar".
Proof. vm_compute. reflexivity. Qed.
Example TestSplitPath_Dot_in_PATH_INFO :
  testSplitPath "/foo/bar/cgi.cgi/./bar"
  = resolvedOk "tests/foo/bar/cgi.cgi" "/foo/bar/cgi.cgi" "/bar".
Proof. vm_compute. reflexivity. Qed.
Example TestSplitPath_Dot_at_the_end_in_PATH_INFO :
  testSplitPath "/foo/bar/cgi.cgi/bar/."
  = resolvedOk "tests/foo/bar/cgi.cgi" "/foo/bar/cgi.cgi" "/bar".
Proof. vm_compute. reflexivity. Qed.
Example TestSplitPath_Dot_dot :
  testSplitPath "/foo/../bar" = resolvedOk "tests/index.map" "" "/bar".
Proof. vm_compute. reflexivity. Qed.
Example TestSplitPath_Dot_dot_at_the_end_2 :
  testSplitPath "/foo/bar/.." = resolvedOk "tests/index.map" "" "/foo".
Proof. vm_compute. reflexivity. Qed.
Example TestSplitPath_Dot_dot_in_PATH_INFO :
  testSplitPath "/foo/bar/cgi.cgi/../bar" = resolvedOk "tests/foo/bar/index.cgi" "/foo/bar" "/bar".
Proof. vm_compute. reflexivity. Qed.
Example TestSplitPath_Dot_dot_at_the_end_in_PATH_INFO :
  testSplitPath "/foo/bar/cgi.cgi/bar/.."
  = resolvedOk "tests/foo/bar/cgi.cgi" "/foo/bar/cgi.cgi" "".
Proof. vm_compute. reflexivity. Qed.
Example TestSplitPath_No_leading_slash :
  testSplitPath "foo" = resolvedOk "tests/index.map" "" "/foo".
Proof. vm_compute. reflexivity. Qed.

(** ** Strings: lengths, slices and indexing *)

Lemma app_cons c s t : String c s +:+ t = String c (s +:+ t).
Proof. reflexivity. Qed.

Lemma app_empty_r s : s +:+ "" = s.
Proof. induction s as [|c s IH]; [done|]. by rewrite app_cons, IH. Qed.

Lemma app_assoc' s t u : (s +:+ t) +:+ u = s +:+ (t +:+ u).
Proof. induction s as [|c s IH]; [done|]. by rewrite !app_cons, IH. Qed.

Lemma len_app s t : len (s +:+ t) = len s + len t.
Proof. induction s as [|c s IH]; [done|]. rewrite app_cons. simpl. by rewrite IH. Qed.

Lemma len_0 s : len s = 0 → s = "".
Proof. by destruct s. Qed.

Lemma str_drop_empty n : str_drop n "" = "".
Proof. by destruct n. Qed.

Lemma str_take_empty n : str_take n "" = "".
Proof. by destruct n. Qed.

Lemma len_drop n s : len (str_drop n s) = len s - n.
Proof.
  revert s. induction n as [|n IH]; intros [|c s]; simpl; done.
Qed.

Lemma len_take n s : len (str_take n s) = n `min` len s.
Proof.
  revert s. induction n as [|n IH]; intros [|c s]; simpl; try done.
  by rewrite IH.
Qed.

Lemma str_drop_all n s : len s ≤ n → str_drop n s = "".
Proof. intros H. apply len_0. rewrite len_drop. lia. Qed.

Lemma str_take_all n s : len s ≤ n → str_take n s = s.
Proof.
  revert s. induction n as [|n IH]; intros [|c s] H; simpl in *; try done.
  - lia.
  - f_equal. apply IH. lia.
Qed.

Lemma take_drop_app n s : str_take n s +:+ str_drop n s = s.
Proof.
  revert s. induction n as [|n IH]; intros [|c s]; simpl; try done.
  by rewrite app_cons, IH.
Qed.

Lemma str_drop_app s t : str_drop (len s) (s +:+ t) = t.
Proof. induction s as [|c s IH]; [done|]. rewrite app_cons. apply IH. Qed.

Lemma str_take_app s t : str_take (len s) (s +:+ t) = s.
Proof. induction s as [|c s IH]; [by destruct t|]. rewrite app_cons. simpl. by rewrite IH. Qed.

Lemma str_take_app_le n s t : n ≤ len s → str_take n (s +:+ t) = str_take n s.
Proof.
  revert s. induction n as [|n IH]; intros [|c s] H; simpl in *; try done.
  - lia.
  - f_equal. apply IH. lia.
Qed.

(** The byte at an index is the head of the suffix that starts there. *)
Lemma get_drop i s :
  String.get i s = match str_drop i s with String c _ => Some c | "" => None end.
Proof.
  revert s. induction i as [|i IH]; intros [|c s]; simpl; done.
Qed.

Lemma str_drop_S i s :
  str_drop (S i) s = match str_drop i s with String _ r => r | "" => "" end.
Proof.
  revert s. induction i as [|i IH]; intros [|c s]; try done.
  apply (IH s).
Qed.

(** The two ways a bounded index meets the suffix at it. *)
Lemma drop_lt i s : i < len s → ∃ c, str_drop i s = String c (str_drop (S i) s).
Proof.
  intros H. pose proof (len_drop i s) as Hl. rewrite str_drop_S.
  destruct (str_drop i s) as [|c r]; simpl in Hl; [lia|]. by exists c.
Qed.

Lemma byte_is_drop i s c :
  byte_is s i c = match str_drop i s with String x _ => Ascii.eqb x c | "" => false end.
Proof. unfold byte_is. rewrite get_drop. by destruct (str_drop i s). Qed.

Lemma eqb_eq_iff (s t : string) : String.eqb s t = true ↔ s = t.
Proof. apply String.eqb_eq. Qed.

Lemma slice_same s a : slice s a a = "".
Proof. unfold slice. rewrite Nat.sub_diag. by destruct (str_drop a s). Qed.

Lemma HasSuffix_app s t : HasSuffix (s +:+ t) t = true.
Proof.
  unfold HasSuffix. rewrite len_app.
  replace (len s + len t - len t) with (len s) by lia.
  rewrite str_drop_app, String.eqb_refl.
  apply andb_true_iff. split; [|done]. apply Nat.leb_le. lia.
Qed.

Lemma HasSuffix_split s t : HasSuffix s t = true → ∃ p, s = p +:+ t.
Proof.
  unfold HasSuffix. intros [_ H]%andb_true_iff. apply eqb_eq_iff in H.
  exists (str_take (len s - len t) s).
  rewrite <- H at 2. by rewrite take_drop_app.
Qed.

Lemma str_take_S c n r : str_take (S n) (String c r) = String c (str_take n r).
Proof. reflexivity. Qed.

Lemma str_drop_S_cons c n r : str_drop (S n) (String c r) = str_drop n r.
Proof. reflexivity. Qed.

Lemma str_drop_0 s : str_drop 0 s = s.
Proof. reflexivity. Qed.

Lemma str_take_0 s : str_take 0 s = "".
Proof. by destruct s. Qed.

#[local] Arguments str_drop : simpl never.
#[local] Arguments str_take : simpl never.

(** ** The path normalizer *)

Lemma ascii_eqb_true (a b : ascii) : Ascii.eqb a b = true → a = b.
Proof. apply Ascii.eqb_eq. Qed.

Lemma segments_slash r : segments (String "/" r) = segments r.
Proof. reflexivity. Qed.

(** The first inner loop stops at the first byte that is not a slash, and
    the slashes it passes hold no segment. *)
Lemma skipSlashes_spec fuel path start :
  len path - start ≤ fuel →
  let s' := skipSlashes fuel path start in
  start ≤ s' ∧ (start ≤ len path → s' ≤ len path) ∧
  (s' < len path → byte_is path s' "/" = false) ∧
  segments (str_drop s' path) = segments (str_drop start path).
Proof.
  revert start. induction fuel as [|fuel IH]; intros start Hf; simpl.
  - repeat split; try lia.
  - destruct (start <? len path) eqn:Hlt; simpl.
    + apply Nat.ltb_lt in Hlt.
      destruct (byte_is path start "/") eqn:Hb.
      * destruct (IH (S start)) as (H1 & H2 & H3 & H4); [lia|].
        repeat split; try lia; [done|]. rewrite H4.
        destruct (drop_lt start path Hlt) as [c Hc].
        rewrite byte_is_drop, Hc in Hb. apply ascii_eqb_true in Hb as ->.
        by rewrite Hc, segments_slash.
      * repeat split; try lia; done.
    + apply Nat.ltb_ge in Hlt. repeat split; try lia.
Qed.

(** The second inner loop stops at the next slash or at the end: what it
    passes is the first piece of [strings.Split] of the rest. *)
Lemma skipComponent_spec fuel path e :
  len path - e ≤ fuel →
  let e' := skipComponent fuel path e in
  e ≤ e' ∧ (e ≤ len path → e' ≤ len path) ∧
  (e < len path → byte_is path e "/" = false → e < e') ∧
  ContainsByte (slice path e e') "/" = false ∧
  splitSlash (str_drop e path)
  = slice path e e' ::
      (if e' <? len path then splitSlash (str_drop (S e') path) else []).
Proof.
  revert e. induction fuel as [|fuel IH]; intros e Hf; simpl.
  - rewrite slice_same, str_drop_all by lia.
    destruct (e <? len path) eqn:Hlt; [apply Nat.ltb_lt in Hlt; lia|].
    repeat split; try lia; done.
  - destruct (e <? len path) eqn:Hltb; simpl.
    + pose proof (proj1 (Nat.ltb_lt _ _) Hltb) as Hlt.
      destruct (drop_lt e path Hlt) as [c Hc].
      destruct (byte_is path e "/") eqn:Hb; simpl.
      * rewrite slice_same, Hltb. rewrite byte_is_drop, Hc in Hb.
        apply ascii_eqb_true in Hb as ->.
        repeat split; try lia; try done. by rewrite Hc.
      * destruct (IH (S e)) as (H1 & H2 & H3 & H4 & H5); [lia|].
        set (e' := skipComponent fuel path (S e)) in *.
        rewrite byte_is_drop, Hc in Hb.
        assert (slice path e e' = String c (slice path (S e) e')) as ->.
        { unfold slice. rewrite Hc. replace (e' - e) with (S (e' - S e)) by lia.
          apply str_take_S. }
        repeat split; try lia.
        -- simpl. by rewrite Hb, H4.
        -- rewrite Hc. simpl. by rewrite Hb, H5.
    + pose proof (proj1 (Nat.ltb_ge _ _) Hltb) as Hlt.
      rewrite slice_same, str_drop_all, Hltb by lia.
      repeat split; try lia; done.
Qed.

Lemma segment_ok_empty : segment_ok "".
Proof. by repeat split. Qed.

(** The outer loop never runs out of fuel; it stops with [ok == false]
    exactly when the segments left to walk pop past the root; and it keeps
    no segment that is [.] or [..] or that holds a slash. *)
Lemma normalizeLoop_spec fuel path start end_ newPath :
  end_ ≤ start →
  len path - end_ < fuel →
  ∃ r, normalizeLoop fuel path start end_ newPath = Some r ∧
    (r = None ↔
       end_ < len path ∧
       popsPastRoot (segments (str_drop start path)) (length newPath) = true) ∧
    (Forall segment_ok newPath → ∀ out, r = Some out → Forall segment_ok out).
Proof.
  revert start end_ newPath.
  induction fuel as [|fuel IH]; intros start end_ newPath Hse Hf; [lia|].
  cbn [normalizeLoop].
  destruct (end_ <? len path) eqn:Hltb.
  2: { apply Nat.ltb_ge in Hltb. exists (Some newPath). split; [done|]. split.
       - split; [done|]. intros [? _]. lia.
       - by intros ? ? [= <-]. }
  pose proof (proj1 (Nat.ltb_lt _ _) Hltb) as Hlt.
  destruct (skipSlashes_spec (len path) path start) as (S1 & S2 & S3 & S4); [lia|].
  set (s' := skipSlashes (len path) path start) in *.
  destruct (skipComponent_spec (len path) path s') as (C1 & C2 & C3 & C4 & C5); [lia|].
  set (e' := skipComponent (len path) path s') in *.
  set (comp := slice path s' e') in *.
  assert (end_ < e') as Hprog.
  { destruct (decide (s' = end_)) as [->|]; [|lia]. apply C3; [done|]. by apply S3. }
  set (tailsegs := if e' <? len path then segments (str_drop (S e') path) else []).
  assert (segments (str_drop start path)
          = (if decide (comp = "") then [] else [comp]) ++ tailsegs) as Hsegs.
  { rewrite <- S4. unfold segments at 1. rewrite C5, filter_cons. unfold tailsegs.
    destruct (decide (comp ≠ "")), (decide (comp = "")), (e' <? len path); done. }
  assert (∀ d, (e' < len path ∧
                popsPastRoot (segments (str_drop (e' + 1) path)) d = true)
               ↔ popsPastRoot tailsegs d = true) as Htail.
  { intros d. unfold tailsegs. rewrite Nat.add_1_r.
    destruct (e' <? len path) eqn:E.
    - apply Nat.ltb_lt in E. tauto.
    - apply Nat.ltb_ge in E. simpl. split; [intros [? _]; lia|done]. }
  assert (comp = "" → tailsegs = []) as Hempty.
  { intros Hc. unfold tailsegs. destruct (e' <? len path) eqn:E; [|done].
    apply Nat.ltb_lt in E. exfalso.
    assert (s' < e') as Hlt' by (apply C3; [lia|apply S3; lia]).
    assert (len comp = 0) as Hl by (by rewrite Hc).
    unfold comp, slice in Hl. rewrite len_take, len_drop in Hl. lia. }
  rewrite Hsegs.
  destruct (String.eqb comp "..") eqn:Edd.
  { apply eqb_eq_iff in Edd. rewrite Edd in *. simpl.
    destruct newPath as [|c0 newPath'] using rev_ind.
    - exists None. simpl. repeat split; try done.
    - rewrite length_app. simpl.
      replace (length newPath' + 1 =? 0) with false
        by (symmetry; apply Nat.eqb_neq; lia).
      replace (length newPath' + 1 - 1) with (length newPath') by lia.
      rewrite take_app_length.
      destruct (IH (e' + 1) e' newPath') as (r & -> & R1 & R2); [lia|lia|].
      exists r. split; [done|]. split.
      + rewrite R1, Htail. replace (length newPath' + 1) with (S (length newPath')) by lia.
        tauto.
      + intros Hok. apply R2. by apply Forall_app in Hok as [? _]. }
  apply String.eqb_neq in Edd.
  destruct (String.eqb comp ".") eqn:Ed; simpl.
  { apply eqb_eq_iff in Ed. rewrite Ed in *. simpl.
    destruct (IH (e' + 1) e' newPath) as (r & -> & R1 & R2); [lia|lia|].
    exists r. split; [done|]. split; [|done].
    rewrite R1, Htail. tauto. }
  apply String.eqb_neq in Ed.
  destruct (IH (e' + 1) e' (newPath ++ [comp])) as (r & -> & R1 & R2); [lia|lia|].
  exists r. split; [done|]. split.
  - rewrite R1, Htail, length_app. simpl.
    replace (length newPath + 1) with (S (length newPath)) by lia.
    destruct (decide (comp = "")) as [Hc|Hc].
    + rewrite (Hempty Hc). simpl. split; [done|]. intros [_ ?]. done.
    + simpl. apply String.eqb_neq in Edd, Ed. rewrite Edd, Ed. tauto.
  - intros Hok. apply R2. apply Forall_app. split; [done|].
    apply Forall_singleton. by repeat split.
Qed.

Lemma normalizeLoop_total path :
  is_Some (normalizeLoop (S (len path)) path 0 0 []).
Proof.
  destruct (normalizeLoop_spec (S (len path)) path 0 0 []) as (r & -> & _); [lia|lia|done].
Qed.

Lemma normalizePath_None_iff path :
  normalizePath path = None ↔ popsPastRoot (segments path) 0 = true.
Proof.
  unfold normalizePath.
  destruct (normalizeLoop_spec (S (len path)) path 0 0 []) as (r & -> & R1 & _); [lia|lia|].
  rewrite str_drop_0 in R1. simpl in R1.
  destruct r as [out|].
  - split; [done|]. intros H.
    assert (0 < len path) as Hlen by (destruct path; [done|simpl; lia]).
    discriminate (proj2 R1 (conj Hlen H)).
  - split; [|done]. intros _. by apply R1.
Qed.

Lemma normalizePath_Some path out :
  normalizePath path = Some out →
  ∃ newPath, out = flatten newPath ∧ Forall segment_ok newPath.
Proof.
  unfold normalizePath.
  destruct (normalizeLoop_spec (S (len path)) path 0 0 []) as (r & -> & _ & R2); [lia|lia|].
  destruct r as [newPath|]; [|done]. intros [= <-].
  exists newPath. split; [done|]. by apply R2.
Qed.

Lemma flatten_acc newPath acc :
  fold_left (λ out c, out +:+ "/" +:+ c) newPath acc = acc +:+ flatten newPath.
Proof.
  unfold flatten. revert acc. induction newPath as [|c t IH]; intros acc; simpl.
  - by rewrite app_empty_r.
  - rewrite IH, (IH ("" +:+ "/" +:+ c)). by rewrite !app_assoc'.
Qed.

Lemma flatten_cons c t : flatten (c :: t) = String "/" (c +:+ flatten t).
Proof. unfold flatten at 1. simpl. by rewrite flatten_acc. Qed.

Lemma splitSlash_no_slash c : ContainsByte c "/" = false → splitSlash c = [c].
Proof.
  induction c as [|x c IH]; [done|]. simpl. intros [Hx Hc]%orb_false_iff.
  by rewrite Hx, (IH Hc).
Qed.

Lemma splitSlash_app c r :
  ContainsByte c "/" = false → splitSlash (c +:+ String "/" r) = c :: splitSlash r.
Proof.
  induction c as [|x c IH]; [done|]. simpl. intros [Hx Hc]%orb_false_iff.
  rewrite ?app_cons. simpl. by rewrite Hx, (IH Hc).
Qed.

Lemma splitSlash_app_flatten c t :
  ContainsByte c "/" = false → Forall segment_ok t →
  splitSlash (c +:+ flatten t) = c :: t.
Proof.
  revert c. induction t as [|d t IH]; intros c Hc Ht.
  - rewrite app_empty_r. by apply splitSlash_no_slash.
  - apply Forall_cons in Ht as [(Hd & _) Ht].
    by rewrite flatten_cons, splitSlash_app, IH.
Qed.

(** The output, cut at its slashes, is an empty piece followed by the kept
    segments. *)
Lemma splitSlash_flatten newPath :
  Forall segment_ok newPath → splitSlash (flatten newPath) = "" :: newPath.
Proof. intros H. by apply (splitSlash_app_flatten "" newPath). Qed.

Lemma flatten_prefix newPath :
  flatten newPath = "" ∨ HasPrefix (flatten newPath) "/" = true.
Proof. destruct newPath as [|c t]; [by left|right]. by rewrite flatten_cons. Qed.

(** C1. For every input, [normalizePath] either fails or returns a string
    that begins with [/] unless it is empty and none of whose [/]-separated
    segments is [.] or [..]; and it fails on every input whose segments pop
    past the root. *)
Theorem normalizePath_confinement (p : string) :
  (∀ out, normalizePath p = Some out →
     (out = "" ∨ HasPrefix out "/" = true) ∧
     (∀ seg, seg ∈ splitSlash out → seg ≠ "." ∧ seg ≠ "..")) ∧
  (popsPastRoot (segments p) 0 = true → normalizePath p = None).
Proof.
  split.
  - intros out (newPath & -> & Hok)%normalizePath_Some. split.
    + apply flatten_prefix.
    + intros seg. rewrite splitSlash_flatten by done.
      intros [->|Hin]%elem_of_cons; [done|].
      rewrite Forall_forall in Hok. by destruct (Hok seg Hin) as (_ & ? & ?).
  - apply normalizePath_None_iff.
Qed.

Lemma normalizePath_confinement_witness :
  normalizePath "/a/./b/../c/" = Some "/a/c/" ∧
  ("/a/c/" = "" ∨ HasPrefix "/a/c/" "/" = true) ∧
  (∀ seg, seg ∈ splitSlash "/a/c/" → seg ≠ "." ∧ seg ≠ "..") ∧
  popsPastRoot (segments "/a/../../b") 0 = true ∧
  normalizePath "/a/../../b" = None.
Proof.
  split; [reflexivity|].
  destruct (normalizePath_confinement "/a/./b/../c/") as [H _].
  destruct (H "/a/c/") as [H1 H2]; [reflexivity|].
  destruct (normalizePath_confinement "/a/../../b") as [_ H3].
  split; [exact H1|]. split; [exact H2|]. split; [reflexivity|].
  apply H3. reflexivity.
Defined.

(** ** The path resolver *)

Section ResolverFacts.
Variable os_Stat : string → FileMode + os_error.
Variable excluded : gmap string bool.

#[local] Abbreviation getStats' := (getStats os_Stat excluded).
#[local] Abbreviation canServeFile' := (canServeFile os_Stat excluded).
#[local] Abbreviation statsAsFile' := (statsAsFile os_Stat excluded).
#[local] Abbreviation probeIndex' := (probeIndex os_Stat excluded).
#[local] Abbreviation walkPath' := (walkPath os_Stat excluded).

Lemma probeIndex_canServe cur w ip :
  probeIndex' cur w ip
  = if canServeFile' (cur +:+ ip)
    then {| w_n := w_n w; w_split := w_n w; w_fsPath := cur +:+ ip; w_err := None |}
    else w.
Proof.
  unfold probeIndex, canServeFile.
  destruct (getStats _ _ _) as [[[isFile isDir] isCGI] pathErr].
  by rewrite andb_comm.
Qed.

Lemma canServeFile_statsAsFile p : canServeFile' p = true → statsAsFile' p.
Proof.
  unfold canServeFile, statsAsFile.
  destruct (getStats _ _ _) as [[[isFile isDir] isCGI] pathErr]. simpl.
  by intros [? _]%andb_true_iff.
Qed.

(** What the probes of one directory leave: nothing, or the last of
    [indexPaths] that can be served. *)
Lemma probes_cases cur w :
  let w' := fold_left (probeIndex' cur) indexPaths w in
  (w' = w ∧ ∀ ip, ip ∈ indexPaths → canServeFile' (cur +:+ ip) = false) ∨
  (∃ ip, ip ∈ indexPaths ∧ canServeFile' (cur +:+ ip) = true ∧
     w' = {| w_n := w_n w; w_split := w_n w; w_fsPath := cur +:+ ip;
             w_err := None |}).
Proof.
  unfold indexPaths. simpl. rewrite !probeIndex_canServe.
  destruct (canServeFile' (cur +:+ indexCgiPath)) eqn:E1;
    destruct (canServeFile' (cur +:+ "/index.map")) eqn:E2; simpl.
  - right. exists "/index.map". repeat split; [set_solver|done].
  - right. exists indexCgiPath. repeat split; [set_solver|done].
  - right. exists "/index.map". repeat split; [set_solver|done].
  - left. split; [done|]. intros ip Hip.
    apply elem_of_cons in Hip as [->|Hip]; [done|].
    by apply list_elem_of_singleton in Hip as ->.
Qed.

Lemma nextSlash_spec fuel path n :
  n ≤ len path → len path - n ≤ fuel →
  let n' := nextSlash fuel path n in
  n ≤ n' ≤ len path ∧ (n' = len path ∨ byte_is path n' "/" = true).
Proof.
  revert n. induction fuel as [|fuel IH]; intros n Hn Hf; simpl.
  - split; [lia|]. left. lia.
  - destruct (n =? len path) eqn:E; simpl.
    + apply Nat.eqb_eq in E. split; [lia|by left].
    + apply Nat.eqb_neq in E. destruct (byte_is path n "/") eqn:Hb; simpl.
      * split; [lia|by right].
      * destruct (IH (S n)) as [? ?]; [lia|lia|]. split; [lia|done].
Qed.

Lemma walkPath_S fuel path w :
  walkPath' (S fuel) path w
  = let n := w_n w in
    let curPath := str_take n path in
    let '(isFile, isDir, _, pathErr) := getStats' curPath in
    if isFile then
      Some {| w_n := n; w_split := n; w_fsPath := curPath; w_err := w_err w |}
    else if negb (bool_decide (pathErr = None)) || negb isDir then Some w
    else
      let w := fold_left (probeIndex' curPath) indexPaths w in
      if n =? len path then Some w
      else
        let n := nextSlash (len path) path (S n) in
        let w := {| w_n := n; w_split := w_split w;
                    w_fsPath := w_fsPath w; w_err := w_err w |} in
        if (n =? len path) && byte_is path (n - 1) "/" then Some w
        else walkPath' fuel path w.
Proof. reflexivity. Qed.

(** An invariant of the walk: a property of the state that the three
    updates of the loop keep holds at the [break]. *)
Lemma walkPath_invariant (P : walk → Prop) path :
  (∀ w, P w → statsAsFile' (str_take (w_n w) path) →
     P {| w_n := w_n w; w_split := w_n w; w_fsPath := str_take (w_n w) path;
          w_err := w_err w |}) →
  (∀ w ip, P w → ip ∈ indexPaths →
     canServeFile' (str_take (w_n w) path +:+ ip) = true →
     P {| w_n := w_n w; w_split := w_n w;
          w_fsPath := str_take (w_n w) path +:+ ip; w_err := None |}) →
  (∀ w n, P w →
     P {| w_n := n; w_split := w_split w; w_fsPath := w_fsPath w;
          w_err := w_err w |}) →
  ∀ fuel w w', P w → walkPath' fuel path w = Some w' → P w'.
Proof.
  intros Hfile Hindex Hnext.
  induction fuel as [|fuel IH]; intros w w' Hw; [done|].
  rewrite walkPath_S. cbv zeta.
  destruct (getStats' (str_take (w_n w) path))
    as [[[isFile isDir] isCGI] pathErr] eqn:Est.
  destruct isFile.
  { intros [= <-]. apply Hfile; [done|]. unfold statsAsFile. by rewrite Est. }
  destruct (negb (bool_decide (pathErr = None)) || negb isDir).
  { by intros [= <-]. }
  assert (P (fold_left (probeIndex' (str_take (w_n w) path)) indexPaths w)) as Hw1.
  { destruct (probes_cases (str_take (w_n w) path) w) as [[-> _]|(ip & Hip & Hs & ->)];
      [done|by apply Hindex]. }
  destruct (w_n w =? len path); [by intros [= <-]|].
  destruct (_ && _); [intros [= <-]|apply IH]; by apply Hnext.
Qed.

(** The loop ends before its fuel does. *)
Lemma walkPath_total fuel path w :
  w_n w ≤ len path → len path - w_n w < fuel → is_Some (walkPath' fuel path w).
Proof.
  revert w. induction fuel as [|fuel IH]; intros w Hn Hf; [lia|].
  rewrite walkPath_S. cbv zeta.
  destruct (getStats' (str_take (w_n w) path)) as [[[isFile isDir] isCGI] pathErr].
  destruct isFile; [done|].
  destruct (negb (bool_decide (pathErr = None)) || negb isDir); [done|].
  destruct (w_n w =? len path) eqn:E; [done|]. apply Nat.eqb_neq in E.
  destruct (_ && _); [done|].
  destruct (nextSlash_spec (len path) path (S (w_n w))) as [? _]; [lia|lia|].
  apply IH; simpl; lia.
Qed.

Lemma splitScriptPathAndPathInfo_total path startLength :
  startLength ≤ len path → is_Some (splitScriptPathAndPathInfo os_Stat excluded path startLength).
Proof.
  intros H. unfold splitScriptPathAndPathInfo.
  destruct (getStats' path) as [[[isFile isDir] isCGI] pathErr].
  destruct (bool_decide (pathErr = None) && isFile); [done|].
  destruct (isExcluded excluded cgiExt); [done|].
  destruct (walkPath_total (S (len path)) path
              {| w_n := startLength; w_split := startLength; w_fsPath := "";
                 w_err := Some fileNotFoundError |}) as [w ->]; simpl; [lia|lia|done].
Qed.
End ResolverFacts.


Lemma IsDir_not_regular mode : IsDir mode = true → IsRegular mode = false.
Proof.
  unfold IsDir, IsRegular. intros H%negb_true_iff%Z.eqb_neq.
  apply Z.eqb_neq. intros H0. apply H.
  replace ModeDir with (Z.land ModeType ModeDir) by reflexivity.
  by rewrite Z.land_assoc, H0.
Qed.

(** [getStats] on a directory that passes the permission rule. *)
Lemma getStats_dir os_Stat excluded path mode :
  os_Stat path = inl mode → IsDir mode = true → Z.land mode 5 = 5%Z →
  getStats os_Stat excluded path = (false, true, false, None).
Proof.
  intros Hst Hdir Hperm. unfold getStats.
  by rewrite Hst, (IsDir_not_regular _ Hdir), Hdir, Hperm.
Qed.

Lemma nextSlash_end fuel path : nextSlash fuel path (len path) = len path.
Proof. destruct fuel; [done|]. simpl. by rewrite Nat.eqb_refl. Qed.

Lemma byte_is_app_head s c r : byte_is (s +:+ String c r) (len s) c = true.
Proof. rewrite byte_is_drop, str_drop_app. apply Ascii.eqb_refl. Qed.

Lemma splitPath_normalized os_Stat excluded rootPath path p q :
  PathUnescape path = Some p → ContainsByte p NUL = false →
  normalizePath p = Some q →
  splitPath os_Stat excluded rootPath path
  = splitScriptPathAndPathInfo os_Stat excluded (rootPath +:+ q) (len rootPath).
Proof. intros H1 H2 H3. unfold splitPath. by rewrite H1, H2, H3. Qed.

(** Resolution at a document root that is a directory passing the
    permission rule, once the probes there have chosen an index file. *)
Lemma root_resolution os_Stat excluded (root : string) (mode : FileMode) ip :
  os_Stat root = inl mode → IsDir mode = true → Z.land mode 5 = 5%Z →
  os_Stat (root +:+ "/") = os_Stat root →
  isExcluded excluded cgiExt = false →
  fold_left (probeIndex os_Stat excluded root) indexPaths
    {| w_n := len root; w_split := len root; w_fsPath := "";
       w_err := Some fileNotFoundError |}
  = {| w_n := len root; w_split := len root; w_fsPath := root +:+ ip;
       w_err := None |} →
  splitPath os_Stat excluded root "" = resolvedOk (root +:+ ip) "" "" ∧
  splitPath os_Stat excluded root "/" = resolvedOk (root +:+ ip) "" "/".
Proof.
  intros Hst Hdir Hperm Hslash Hcgi Hw1.
  pose proof (getStats_dir os_Stat excluded root mode Hst Hdir Hperm) as Hroot.
  assert (getStats os_Stat excluded (root +:+ "/") = (false, true, false, None))
    as Hroot' by (apply (getStats_dir _ _ _ mode); [by rewrite Hslash|done|done]).
  set (w0 := {| w_n := len root; w_split := len root; w_fsPath := "";
                w_err := Some fileNotFoundError |}) in *.
  split.
  - rewrite (splitPath_normalized _ _ _ "" "" "") by reflexivity.
    rewrite app_empty_r.
    unfold splitScriptPathAndPathInfo. rewrite Hroot, Hcgi. cbv iota beta.
    change (bool_decide (None = None) && false) with false. cbv iota.
    fold w0. rewrite walkPath_S. cbv zeta.
    replace (w_n w0) with (len root) by done.
    rewrite str_take_all by lia. rewrite Hroot. cbv iota beta.
    change (negb (bool_decide (None = None)) || negb true) with false. cbv iota.
    rewrite Hw1, Nat.eqb_refl. simpl.
    by rewrite slice_same, str_drop_all by lia.
  - rewrite (splitPath_normalized _ _ _ "/" "/" "/") by reflexivity.
    unfold splitScriptPathAndPathInfo. rewrite Hroot', Hcgi. cbv iota beta.
    change (bool_decide (None = None) && false) with false. cbv iota.
    fold w0. rewrite walkPath_S. cbv zeta.
    replace (w_n w0) with (len root) by done.
    rewrite str_take_app, Hroot. cbv iota beta.
    change (negb (bool_decide (None = None)) || negb true) with false. cbv iota.
    rewrite Hw1.
    assert (len (root +:+ "/") = S (len root)) as Hlen by (rewrite len_app; simpl; lia).
    replace (len root =? len (root +:+ "/")) with false
      by (symmetry; apply Nat.eqb_neq; lia).
    cbn [w_n w_split w_fsPath w_err].
    rewrite <- Hlen. rewrite nextSlash_end, Nat.eqb_refl.
    replace (len (root +:+ "/") - 1) with (len root) by lia.
    rewrite byte_is_app_head. simpl.
    by rewrite slice_same, str_drop_app.
Qed.

(** Resolution at a document root that is a directory passing the
    permission rule, whatever the probes there leave. *)
Lemma root_resolution_any os_Stat excluded (root : string) (mode : FileMode)
    (f : string) (e : option responseError) :
  os_Stat root = inl mode → IsDir mode = true → Z.land mode 5 = 5%Z →
  os_Stat (root +:+ "/") = os_Stat root →
  isExcluded excluded cgiExt = false →
  fold_left (probeIndex os_Stat excluded root) indexPaths
    {| w_n := len root; w_split := len root; w_fsPath := "";
       w_err := Some fileNotFoundError |}
  = {| w_n := len root; w_split := len root; w_fsPath := f; w_err := e |} →
  splitPath os_Stat excluded root ""
  = Some {| fsPath := f; scriptName := ""; pathInfo := ""; err := e |} ∧
  splitPath os_Stat excluded root "/"
  = Some {| fsPath := f; scriptName := ""; pathInfo := "/"; err := e |}.
Proof.
  intros Hst Hdir Hperm Hslash Hcgi Hw1.
  pose proof (getStats_dir os_Stat excluded root mode Hst Hdir Hperm) as Hroot.
  assert (getStats os_Stat excluded (root +:+ "/") = (false, true, false, None))
    as Hroot' by (apply (getStats_dir _ _ _ mode); [by rewrite Hslash|done|done]).
  set (w0 := {| w_n := len root; w_split := len root; w_fsPath := "";
                w_err := Some fileNotFoundError |}) in *.
  split.
  - rewrite (splitPath_normalized _ _ _ "" "" "") by reflexivity.
    rewrite app_empty_r.
    unfold splitScriptPathAndPathInfo. rewrite Hroot, Hcgi. cbv iota beta.
    change (bool_decide (None = None) && false) with false. cbv iota.
    fold w0. rewrite walkPath_S. cbv zeta.
    replace (w_n w0) with (len root) by done.
    rewrite str_take_all by lia. rewrite Hroot. cbv iota beta.
    change (negb (bool_decide (None = None)) || negb true) with false. cbv iota.
    rewrite Hw1, Nat.eqb_refl. simpl.
    by rewrite slice_same, str_drop_all by lia.
  - rewrite (splitPath_normalized _ _ _ "/" "/" "/") by reflexivity.
    unfold splitScriptPathAndPathInfo. rewrite Hroot', Hcgi. cbv iota beta.
    change (bool_decide (None = None) && false) with false. cbv iota.
    fold w0. rewrite walkPath_S. cbv zeta.
    replace (w_n w0) with (len root) by done.
    rewrite str_take_app, Hroot. cbv iota beta.
    change (negb (bool_decide (None = None)) || negb true) with false. cbv iota.
    rewrite Hw1.
    assert (len (root +:+ "/") = S (len root)) as Hlen by (rewrite len_app; simpl; lia).
    replace (len root =? len (root +:+ "/")) with false
      by (symmetry; apply Nat.eqb_neq; lia).
    cbn [w_n w_split w_fsPath w_err].
    rewrite <- Hlen. rewrite nextSlash_end, Nat.eqb_refl.
    replace (len (root +:+ "/") - 1) with (len root) by lia.
    rewrite byte_is_app_head. simpl.
    by rewrite slice_same, str_drop_app.
Qed.

(** With [.cgi] excluded, the document root of the test suite, which holds
    [index.map], resolves neither for the empty path nor for ["/"]: both
    fail with [fileNotFoundError]. *)
Lemma empty_path_cgi_excluded :
  canServeFile (statTree testsTree) {[ ".cgi" := true ]} "tests/index.map" = true ∧
  normalizePath "" = Some "" ∧
  splitPath (statTree testsTree) {[ ".cgi" := true ]} "tests" ""
  = Some {| fsPath := ""; scriptName := ""; pathInfo := "";
            err := Some fileNotFoundError |} ∧
  splitPath (statTree testsTree) {[ ".cgi" := true ]} "tests" "/"
  = Some {| fsPath := ""; scriptName := ""; pathInfo := "";
            err := Some fileNotFoundError |}.
Proof. repeat split; vm_compute; reflexivity. Qed.

(** C10 (amended). The empty selector path is accepted: [normalizePath("")]
    is the empty string, the only output that does not begin with [/]. Over
    a document root that is a directory passing the permission rule, the
    resolution of the empty path and of ["/"] is this: with [.cgi] excluded
    both fail with [fileNotFoundError]; otherwise both resolve to the index
    file of the root, which is [index.map] when that can be served and
    [index.cgi] when only that can, with empty [scriptName], and with
    [pathInfo] empty for the empty path and ["/"] for ["/"]; and when
    neither index file can be served both fail with [fileNotFoundError]. *)
Theorem empty_path_accepted os_Stat excluded (root : string) (mode : FileMode) :
  os_Stat root = inl mode → IsDir mode = true → Z.land mode 5 = 5%Z →
  os_Stat (root +:+ "/") = os_Stat root →
  normalizePath "" = Some "" ∧
  (∀ p out, normalizePath p = Some out → HasPrefix out "/" = false → out = "") ∧
  let notFound pathInfo :=
    Some {| fsPath := ""; scriptName := ""; pathInfo := pathInfo;
            err := Some fileNotFoundError |} in
  if isExcluded excluded cgiExt then
    splitPath os_Stat excluded root "" = notFound "" ∧
    splitPath os_Stat excluded root "/" = notFound ""
  else if canServeFile os_Stat excluded (root +:+ "/index.map") then
    splitPath os_Stat excluded root "" = resolvedOk (root +:+ "/index.map") "" "" ∧
    splitPath os_Stat excluded root "/" = resolvedOk (root +:+ "/index.map") "" "/"
  else if canServeFile os_Stat excluded (root +:+ indexCgiPath) then
    splitPath os_Stat excluded root "" = resolvedOk (root +:+ indexCgiPath) "" "" ∧
    splitPath os_Stat excluded root "/" = resolvedOk (root +:+ indexCgiPath) "" "/"
  else
    splitPath os_Stat excluded root "" = notFound "" ∧
    splitPath os_Stat excluded root "/" = notFound "/".
Proof.
  intros Hst Hdir Hperm Hslash.
  split; [reflexivity|]. split.
  { intros p out (newPath & -> & _)%normalizePath_Some Hpre.
    destruct (flatten_prefix newPath) as [?|Hp]; [done|]. by rewrite Hp in Hpre. }
  cbv zeta. destruct (isExcluded excluded cgiExt) eqn:Hcgi.
  { pose proof (getStats_dir os_Stat excluded root mode Hst Hdir Hperm) as Hroot.
    assert (getStats os_Stat excluded (root +:+ "/") = (false, true, false, None))
      as Hroot' by (apply (getStats_dir _ _ _ mode); [by rewrite Hslash|done|done]).
    split.
    - rewrite (splitPath_normalized _ _ _ "" "" "") by reflexivity.
      rewrite app_empty_r. unfold splitScriptPathAndPathInfo.
      by rewrite Hroot, Hcgi.
    - rewrite (splitPath_normalized _ _ _ "/" "/" "/") by reflexivity.
      unfold splitScriptPathAndPathInfo. by rewrite Hroot', Hcgi. }
  destruct (canServeFile os_Stat excluded (root +:+ "/index.map")) eqn:E2;
    [|destruct (canServeFile os_Stat excluded (root +:+ indexCgiPath)) eqn:E1];
    apply (root_resolution_any os_Stat excluded root mode); try done;
    unfold indexPaths; simpl; rewrite !probeIndex_canServe, ?E1, ?E2; try done.
  by destruct (canServeFile os_Stat excluded (root +:+ indexCgiPath)).
Qed.

Lemma empty_path_accepted_witness :
  normalizePath "" = Some "" ∧
  testSplitPath "" = resolvedOk "tests/index.map" "" "" ∧
  testSplitPath "/" = resolvedOk "tests/index.map" "" "/".
Proof.
  destruct (empty_path_accepted (statTree testsTree) ∅ "tests" (dirMode 493))
    as (H1 & _ & H2).
  - reflexivity.
  - reflexivity.
  - reflexivity.
  - reflexivity.
  - split; [exact H1|]. exact H2.
Defined.

(** The only error of [splitScriptPathAndPathInfo] is its default error,
    [fileNotFoundError]. *)
Lemma splitScriptPathAndPathInfo_errors os_Stat excluded path startLength r :
  splitScriptPathAndPathInfo os_Stat excluded path startLength = Some r →
  err r = None ∨ err r = Some fileNotFoundError.
Proof.
  unfold splitScriptPathAndPathInfo.
  destruct (getStats os_Stat excluded path) as [[[isFile isDir] isCGI] pathErr].
  destruct (bool_decide (pathErr = None) && isFile); [intros [= <-]; by left|].
  destruct (isExcluded excluded cgiExt); [intros [= <-]; by right|].
  destruct (walkPath _ _ _ _ _) as [w|] eqn:Hw; [|done]. simpl. intros [= <-]. simpl.
  revert Hw.
  apply (walkPath_invariant os_Stat excluded
           (λ w, w_err w = None ∨ w_err w = Some fileNotFoundError)); simpl; auto.
Qed.

Lemma splitPath_errors os_Stat excluded rootPath path r e :
  splitPath os_Stat excluded rootPath path = Some r → err r = Some e →
  e = badRequestError ∨ e = forbiddenError ∨ e = fileNotFoundError.
Proof.
  unfold splitPath. destruct (PathUnescape path) as [p|].
  2: { intros [= <-] [= <-]. by left. }
  destruct (ContainsByte p NUL). { intros [= <-] [= <-]. by left. }
  destruct (normalizePath p) as [q|].
  2: { intros [= <-] [= <-]. right. by left. }
  intros [H|H]%splitScriptPathAndPathInfo_errors; rewrite H; [done|].
  intros [= <-]. right. by right.
Qed.

(** *** Path info and CGIs *)

(** [splitPath] on the tree of the test suite returns [index.map], which is
    no CGI, together with the path info ["/"] and no error (the case "Root"
    of [TestSplitPath]). *)
Lemma splitPath_pathInfo_without_cgi :
  ∃ r, splitPath (statTree testsTree) ∅ "tests" "/" = Some r ∧
    err r = None ∧ pathInfo r ≠ "" ∧
    HasSuffix (fsPath r) ".cgi" = false ∧ HasSuffix (fsPath r) "/index.cgi" = false.
Proof.
  eexists. split; [vm_compute; reflexivity|]. simpl. repeat split; done.
Qed.

Lemma makeErrorResponse_status configMap e :
  resp_status (makeErrorResponse configMap e) = status e.
Proof. reflexivity. Qed.

(** C2 (amended). [splitPath] may return a file that is no CGI with path
    info left over; it is [getResponseFromPath] that lets only a CGI have
    path info. When the resolution of a path leaves non-empty path info: a
    response with status 200 means that the resolved file ends in [.cgi];
    and a resolved file that does not end in [.cgi] is never served: the
    response is the error entry of [fileNotFoundError] (404) when [os.Open]
    succeeds or reports that the file does not exist, and that of
    [forbiddenError] (403) when [os.Open] fails otherwise. *)
Theorem pathInfo_only_for_cgi configMap docRoot uptime requestCount
    bytesTransferred os_Stat excluded os_Open spawn conn
    (selector path query search : string) (r : resolved) (resp : response) :
  splitPath os_Stat excluded docRoot path = Some r →
  pathInfo r ≠ "" →
  getResponseForRequest configMap docRoot uptime requestCount bytesTransferred
    os_Stat excluded os_Open spawn conn selector path query search = Some resp →
  (resp_status resp = okStatus → HasSuffix (fsPath r) cgiExt = true) ∧
  (err r = None → HasSuffix (fsPath r) cgiExt = false →
   resp = makeErrorResponse configMap
            match os_Open (fsPath r) with
            | None => fileNotFoundError
            | Some e => if os_IsNotExist e then fileNotFoundError
                        else forbiddenError
            end ∧
   resp_status resp ≠ okStatus ∧ resp_cmd resp = None).
Proof.
  intros Hr Hinfo. unfold getResponseForRequest. rewrite Hr. simpl.
  destruct (err r) as [e|] eqn:He.
  { intros [= <-]. split; [|done]. rewrite makeErrorResponse_status.
    by destruct (splitPath_errors _ _ _ _ _ _ Hr He) as [-> | [-> | ->]]. }
  intros [= <-]. unfold getResponseFromPath.
  destruct (os_Open (fsPath r)) as [e|].
  { destruct (os_IsNotExist e); (split; [done|]); intros _ _; by repeat split. }
  destruct (HasSuffix (fsPath r) cgiExt); [done|].
  destruct (String.eqb (pathInfo r) "") eqn:E; [by apply eqb_eq_iff in E|].
  simpl. split; [done|]. intros _ _. by repeat split.
Qed.

Lemma pathInfo_only_for_cgi_witness :
  testSplitPath "/" = resolvedOk "tests/index.map" "" "/" ∧
  ∃ resp,
    getResponseForRequest defaultConfig "tests" 0 0 0 (statTree testsTree) ∅
      (λ _, None) (λ _, Started) None "/" "/" "" "" = Some resp ∧
    resp = makeErrorResponse defaultConfig fileNotFoundError ∧
    resp_status resp ≠ okStatus ∧ resp_cmd resp = None.
Proof.
  split; [vm_compute; reflexivity|].
  eexists. split; [vm_compute; reflexivity|].
  refine (proj2 (pathInfo_only_for_cgi defaultConfig "tests" 0 0 0
                   (statTree testsTree) ∅ (λ _, None) (λ _, Started) None
                   "/" "/" "" ""
                   {| fsPath := "tests/index.map"; scriptName := "";
                      pathInfo := "/"; err := None |} _ _ _ _) _ _).
  - vm_compute. reflexivity.
  - discriminate.
  - vm_compute. reflexivity.
  - reflexivity.
  - reflexivity.
Defined.

(** *** A script met on the way *)

(** C3 (the code at a failing input). The document root [srv] holds the
    script [a.cgi] and no index file. For the selector [/a.cgi/x] the cursor
    reaches the prefix [srv/a.cgi], a regular file, and the resolver sets
    [fsPath] and the path info, but it leaves its default error in place:
    the resolution fails with [fileNotFoundError]. *)
Theorem script_prefix_without_index_fails :
  statTree scriptTree "srv/a.cgi" = inl 493%Z ∧
  IsRegular 493%Z = true ∧
  splitPath (statTree scriptTree) ∅ "srv" "/a.cgi/x"
  = Some {| fsPath := "srv/a.cgi"; scriptName := "/a.cgi"; pathInfo := "/x";
            err := Some fileNotFoundError |}.
Proof. repeat split; vm_compute; reflexivity. Qed.

(** *** Excluded extensions *)

(** A successful resolution names a path that stats as a regular file that
    is not excluded. *)
Lemma splitScriptPathAndPathInfo_statsAsFile os_Stat excluded path startLength r :
  splitScriptPathAndPathInfo os_Stat excluded path startLength = Some r →
  err r = None → statsAsFile os_Stat excluded (fsPath r).
Proof.
  unfold splitScriptPathAndPathInfo.
  destruct (getStats os_Stat excluded path) as [[[isFile isDir] isCGI] pathErr] eqn:Est.
  destruct (bool_decide (pathErr = None) && isFile) eqn:E.
  { intros [= <-] _. simpl. unfold statsAsFile. rewrite Est. simpl.
    by apply andb_true_iff in E as [_ ?]. }
  destruct (isExcluded excluded cgiExt); [by intros [= <-]|].
  destruct (walkPath _ _ _ _ _) as [w|] eqn:Hw; [|done]. simpl. intros [= <-]. simpl.
  revert Hw.
  apply (walkPath_invariant os_Stat excluded
           (λ w, w_err w = None → statsAsFile os_Stat excluded (w_fsPath w)));
    simpl; auto using canServeFile_statsAsFile.
  done.
Qed.

(** [getStats] answers [forbiddenError] for a regular file with an excluded
    extension. *)
Lemma getStats_excluded os_Stat excluded (path : string) (mode : FileMode) :
  os_Stat path = inl mode → IsRegular mode = true →
  isExcluded excluded (Ext path) = true →
  getStats os_Stat excluded path = (false, false, false, Some forbiddenError).
Proof. intros Hst Hreg Hex. unfold getStats. by rewrite Hst, Hreg, Hex. Qed.

(** Whenever the full path stats as a regular file with an excluded
    extension, the resolution returns, its error is never [forbiddenError],
    and a success names another file. *)
Lemma excluded_file_hidden os_Stat excluded (rootDir path p normalizedPath : string)
    (mode : FileMode) :
  PathUnescape path = Some p → ContainsByte p NUL = false →
  normalizePath p = Some normalizedPath →
  os_Stat (rootDir +:+ normalizedPath) = inl mode →
  IsRegular mode = true →
  isExcluded excluded (Ext (rootDir +:+ normalizedPath)) = true →
  ∃ r, splitPath os_Stat excluded rootDir path = Some r ∧
    err r ≠ Some forbiddenError ∧
    (err r = None ∨ err r = Some fileNotFoundError) ∧
    (err r = None → fsPath r ≠ rootDir +:+ normalizedPath).
Proof.
  intros Hp Hnul Hq Hst Hreg Hex.
  pose proof (getStats_excluded _ _ _ _ Hst Hreg Hex) as Hgs.
  rewrite (splitPath_normalized _ _ _ _ _ _ Hp Hnul Hq).
  destruct (splitScriptPathAndPathInfo_total os_Stat excluded
              (rootDir +:+ normalizedPath) (len rootDir)) as [r Hr].
  { rewrite len_app. lia. }
  exists r. split; [done|].
  pose proof (splitScriptPathAndPathInfo_errors _ _ _ _ _ Hr) as He.
  split; [by destruct He as [-> | ->]|]. split; [done|].
  intros He' Heq.
  pose proof (splitScriptPathAndPathInfo_statsAsFile _ _ _ _ _ Hr He') as Hf.
  unfold statsAsFile in Hf. by rewrite Heq, Hgs in Hf.
Qed.

(** C5 (the code at a failing input). The document root [srv] holds the
    regular file [secret.bak] and no index file, and [.bak] is excluded. For
    the selector [/secret.bak] the full path stats as a regular file with an
    excluded extension, and [getStats] answers [forbiddenError] for it; but
    the resolver drops the error of [getStats] and returns its default
    error: the resolution fails with [fileNotFoundError], and the response
    has status 404, not 403. *)
Theorem excluded_file_not_found :
  statTree backupTree "srv/secret.bak" = inl 420%Z ∧
  IsRegular 420%Z = true ∧
  isExcluded excludeBak (Ext "srv/secret.bak") = true ∧
  normalizePath "/secret.bak" = Some "/secret.bak" ∧
  getStats (statTree backupTree) excludeBak "srv/secret.bak"
  = (false, false, false, Some forbiddenError) ∧
  splitPath (statTree backupTree) excludeBak "srv" "/secret.bak"
  = Some {| fsPath := ""; scriptName := ""; pathInfo := "/secret.bak";
            err := Some fileNotFoundError |} ∧
  getResponseForRequest defaultConfig "srv" 0 0 0 (statTree backupTree)
    excludeBak (λ _, None) (λ _, Started) None
    "/secret.bak" "/secret.bak" "" ""
  = Some (makeErrorResponse defaultConfig fileNotFoundError) ∧
  status fileNotFoundError = 404%Z ∧ status forbiddenError = 403%Z.
Proof. repeat split; vm_compute; reflexivity. Qed.

(** *** The order of the index files *)

(** In a directory that holds both index files, the probes leave
    [index.map], and so does the resolution of a path below it. *)
Lemma both_index_files_yield_map :
  canServeFile (statTree bothIndexTree) ∅ "srv/index.cgi" = true ∧
  canServeFile (statTree bothIndexTree) ∅ "srv/index.map" = true ∧
  w_fsPath (fold_left (probeIndex (statTree bothIndexTree) ∅ "srv") indexPaths
              {| w_n := 3; w_split := 3; w_fsPath := "";
                 w_err := Some fileNotFoundError |}) = "srv/index.map" ∧
  splitPath (statTree bothIndexTree) ∅ "srv" "/x" = resolvedOk "srv/index.map" "" "/x" ∧
  HasSuffix "srv/index.map" "/index.cgi" = false.
Proof. repeat split; vm_compute; reflexivity. Qed.

(** C6 (amended). At a directory cursor position where both [index.cgi] and
    [index.map] are regular files that pass the permission rule, the probes
    leave [index.map], the last of the probe order, as the candidate of that
    position; at a document root this is the resolution of the empty path
    and of ["/"]. *)
Theorem last_index_file_wins os_Stat excluded (curPath : string) (w : walk)
    (mode : FileMode) :
  canServeFile os_Stat excluded (curPath +:+ "/index.cgi") = true →
  canServeFile os_Stat excluded (curPath +:+ "/index.map") = true →
  fold_left (probeIndex os_Stat excluded curPath) indexPaths w
  = {| w_n := w_n w; w_split := w_n w; w_fsPath := curPath +:+ "/index.map";
       w_err := None |} ∧
  (os_Stat curPath = inl mode → IsDir mode = true → Z.land mode 5 = 5%Z →
   os_Stat (curPath +:+ "/") = os_Stat curPath →
   isExcluded excluded cgiExt = false →
   splitPath os_Stat excluded curPath ""
   = resolvedOk (curPath +:+ "/index.map") "" "" ∧
   splitPath os_Stat excluded curPath "/"
   = resolvedOk (curPath +:+ "/index.map") "" "/").
Proof.
  intros Hcgi Hmap.
  assert (∀ w, fold_left (probeIndex os_Stat excluded curPath) indexPaths w
               = {| w_n := w_n w; w_split := w_n w;
                    w_fsPath := curPath +:+ "/index.map"; w_err := None |}) as Hprobes.
  { intros w1. unfold indexPaths, indexCgiPath. simpl.
    by rewrite !probeIndex_canServe, Hcgi, Hmap. }
  split; [apply Hprobes|].
  intros Hst Hdir Hperm Hslash Hex.
  by apply (root_resolution os_Stat excluded curPath mode "/index.map").
Qed.

Lemma last_index_file_wins_witness :
  splitPath (statTree bothIndexTree) ∅ "srv" "" = resolvedOk "srv/index.map" "" "" ∧
  splitPath (statTree bothIndexTree) ∅ "srv" "/" = resolvedOk "srv/index.map" "" "/".
Proof.
  destruct (last_index_file_wins (statTree bothIndexTree) ∅ "srv"
              {| w_n := 3; w_split := 3; w_fsPath := "";
                 w_err := Some fileNotFoundError |} (dirMode 493)) as [_ H].
  - vm_compute. reflexivity.
  - vm_compute. reflexivity.
  - apply H; vm_compute; reflexivity.
Defined.

(** ** The request splitter *)

Lemma Cut_found s c :
  (Cut s c).2 = ContainsByte s c.
Proof.
  induction s as [|x s IH]; [done|]. simpl.
  destruct (Ascii.eqb x c); [done|].
  destruct (Cut s c) as [[before after] found]. by simpl in *.
Qed.

Lemma Cut_spec s c :
  let '(before, after, found) := Cut s c in
  ContainsByte before c = false ∧
  s = (if found then before +:+ String c after else before) ∧
  (found = false → after = "").
Proof.
  induction s as [|x s IH]; [done|]. simpl.
  destruct (Ascii.eqb x c) eqn:E.
  - apply ascii_eqb_true in E as ->. done.
  - destruct (Cut s c) as [[before after] found]. simpl. rewrite E.
    destruct IH as (H1 & H2 & H3). repeat split; [done| |done].
    destruct found; by rewrite app_cons, <- ?H2 || by rewrite <- H2.
Qed.

(** The request [/a?] has an empty query, and its selector is not its path. *)
Lemma splitRequest_empty_query :
  splitRequest "/a?" = ("/a?", "/a", "", "") ∧ "/a?" ≠ "/a".
Proof. split; [reflexivity|discriminate]. Qed.

(** C8 (amended). For every request, the selector is the path when the
    selector holds no [?], and the path, a [?] and the query otherwise; the
    query is empty unless the selector holds a [?]. *)
Theorem splitRequest_selector (request : string) :
  let '(selector, path, query, search) := splitRequest request in
  selector = (if ContainsByte selector "?" then path +:+ String "?" query else path) ∧
  (ContainsByte selector "?" = true ∨ query = "").
Proof.
  unfold splitRequest.
  destruct (Cut request TAB) as [[selectorBytes searchBytes] f1].
  destruct (Cut searchBytes TAB) as [[searchBytes' rest] f2].
  pose proof (Cut_spec selectorBytes "?") as Hs.
  pose proof (Cut_found selectorBytes "?") as Hf.
  destruct (Cut selectorBytes "?") as [[pathBytes queryBytes] found].
  simpl in Hf. rewrite <- Hf. destruct Hs as (_ & Hs & Hq).
  destruct found; [by split; [|left]|]. split; [done|]. right. by apply Hq.
Qed.

(** The search string is what follows the first tab, up to the next one. *)
Lemma splitRequest_search (request : string) :
  let '(selector, path, query, search) := splitRequest request in
  ContainsByte selector TAB = false ∧ ContainsByte search TAB = false ∧
  (ContainsByte request TAB = false → selector = request ∧ search = "").
Proof.
  unfold splitRequest.
  pose proof (Cut_spec request TAB) as H1. pose proof (Cut_found request TAB) as F1.
  destruct (Cut request TAB) as [[selectorBytes searchBytes] f1].
  pose proof (Cut_spec searchBytes TAB) as H2.
  destruct (Cut searchBytes TAB) as [[searchBytes' rest] f2].
  destruct (Cut selectorBytes "?") as [[pathBytes queryBytes] found].
  destruct H1 as (H1 & H1' & H1''), H2 as (H2 & H2' & H2'').
  split; [done|].
  split; [done|].
  simpl in F1. intros Hno. rewrite Hno in F1. subst f1. split; [done|].
  rewrite (H1'' eq_refl) in H2'. by destruct f2, searchBytes'.
Qed.

(** ** The request reader *)

Lemma Cut_before_len s c :
  let '(before, after, found) := Cut s c in
  len before + (if found then 1 else 0) ≤ len s.
Proof.
  induction s as [|x s IH]; [simpl; lia|]. simpl.
  destruct (Ascii.eqb x c); [simpl; lia|].
  destruct (Cut s c) as [[before after] found]. simpl in *. lia.
Qed.

(** What the loop guarantees: a request that it returns is shorter than
    [maxRequestSize] plus one read. *)
Lemma readLoop_bound reads requestBuf request :
  Forall chunk_ok reads →
  readLoop reads requestBuf = inl request →
  len request < maxRequestSize + readChunkSize - 1.
Proof.
  intros Hok. revert requestBuf.
  induction Hok as [|rd reads Hrd Hok IH]; intros requestBuf; cbn [readLoop].
  { by destruct (_ <? _). }
  destruct (len requestBuf <? maxRequestSize) eqn:Hlt; [|done].
  apply Nat.ltb_lt in Hlt.
  destruct rd as [chunk|]; [|done]. simpl in Hrd.
  destruct (ContainsByte chunk NUL); [done|].
  pose proof (Cut_before_len chunk LF) as Hcut.
  destruct (Cut chunk LF) as [[before after] foundLF].
  destruct foundLF; [|apply IH].
  assert (len (requestBuf +:+ before) < maxRequestSize + readChunkSize - 1)
    by (rewrite len_app; lia).
  destruct (IndexByte _ CR) as [crIndex|]; [|by intros [= <-]].
  destruct (negb _); [done|]. intros [= <-]. rewrite len_take. lia.
Qed.

(** C4 (the code at a failing input). Every read of [longLineReads]
    delivers at most [readChunkSize] bytes, the first line feed comes after
    20 478 bytes, more than [maxRequestSize], and [readRequest] returns those
    20 478 bytes as the request, with no error. *)
Theorem readRequest_exceeds_maxRequestSize :
  Forall chunk_ok longLineReads ∧
  readRequest longLineReads = inl (str_repeat "a" 20478) ∧
  len (str_repeat "a" 20478) = 20478 ∧
  maxRequestSize < 20478.
Proof.
  split.
  { repeat constructor; apply Nat.leb_le; vm_compute; reflexivity. }
  split.
  { assert (match readRequest longLineReads with
            | inl r => String.eqb r (str_repeat "a" 20478)
            | inr _ => false
            end = true) as H by (vm_compute; reflexivity).
    destruct (readRequest longLineReads) as [r|]; [|done].
    by apply eqb_eq_iff in H as ->. }
  split; [apply Nat.eqb_eq; vm_compute; reflexivity|].
  apply Nat.ltb_lt. vm_compute. reflexivity.
Qed.

(** ** The CGI runner *)



Example sprintf_d_70 : sprintf_d 70 = "70".
Proof. reflexivity. Qed.



(** ** The accept loop *)

Lemma filter_insert_returned (l : list handlerPc) i :
  l !! i = Some Running →
  length (filter (λ h, h = Running) (<[i := Returned]> l)) + 1
  = length (filter (λ h, h = Running) l) ∧
  length (filter (λ h, h = Returned) (<[i := Returned]> l))
  = S (length (filter (λ h, h = Returned) l)).
Proof.
  revert i. induction l as [|x l IH]; intros i Hi; [done|].
  destruct i as [|i]; simpl in *.
  - injection Hi as ->. rewrite !filter_cons. simpl. lia.
  - rewrite !filter_cons. destruct (IH i Hi) as [IH1 IH2].
    destruct (decide (x = Running)), (decide (x = Returned)); simpl; lia.
Qed.

Lemma reachable_invariant maxConn s :
  reachable maxConn s →
  holders s + (match accept_pc s with AtAccept => 1 | AtSend => 0 end) ≤ chanLen s ∧
  chanLen s ≤ maxConn ∧
  sent s = chanLen s + returnedCount s.
Proof.
  induction 1 as [|s s' _ (IH1 & IH2 & IH3) Hstep].
  { simpl. repeat split; lia. }
  destruct Hstep as [s Hpc Hlen|s Hpc|s Hpc|s i Hi Hlen];
    unfold holders, returnedCount in *; simpl in *; try rewrite Hpc in IH1.
  - repeat split; lia.
  - rewrite !filter_app, !length_app. simpl. repeat split; lia.
  - repeat split; lia.
  - destruct (filter_insert_returned _ _ Hi) as [Hf Hg].
    repeat split; lia.
Qed.

(** A step changes a handler only by letting it return, and that takes one
    token out of [connChan]. *)
Lemma step_handler maxConn s s' i h :
  step maxConn s s' → handlers s !! i = Some h →
  handlers s' !! i = Some h ∨
  h = Running ∧ handlers s' !! i = Some Returned ∧
    chanLen s = S (chanLen s') ∧ sent s' = sent s.
Proof.
  intros Hstep Hh.
  destruct Hstep as [s Hpc Hlen|s Hpc|s Hpc|s i0 Hi0 Hlen]; simpl.
  - by left.
  - left. by apply lookup_app_l_Some.
  - by left.
  - destruct (decide (i = i0)) as [->|Hne].
    + right. rewrite Hi0 in Hh. injection Hh as <-.
      split; [done|]. split; [|lia].
      apply list_lookup_insert_eq. by eapply lookup_lt_Some.
    + left. by rewrite list_lookup_insert_ne.
Qed.

(** C9. In every state that the accept loop and the handlers can reach, the
    running handlers, each of which holds one token of [connChan], number at
    most [maxConn]. The tokens received from the channel are as many as the
    handlers that have returned: one for each. The deferred receive of a
    running handler finds a token, so that it never blocks. And in any step
    from there a handler either stays as it is or goes from running to
    returned while the channel loses exactly one token, so that a handler
    that has returned takes no second one. *)
Theorem concurrency_cap maxConn (s : server) :
  reachable maxConn s →
  holders s ≤ chanLen s ∧ chanLen s ≤ maxConn ∧ holders s ≤ maxConn ∧
  received s = returnedCount s ∧
  sent s = chanLen s + returnedCount s ∧
  (∀ i, handlers s !! i = Some Running → 0 < chanLen s) ∧
  (∀ s' i h, step maxConn s s' → handlers s !! i = Some h →
     match h with
     | Returned => handlers s' !! i = Some Returned
     | Running =>
         handlers s' !! i = Some Running ∨
         handlers s' !! i = Some Returned ∧ chanLen s = S (chanLen s') ∧
           received s' = S (received s) ∧ reachable maxConn s'
     end).
Proof.
  intros Hreach. pose proof Hreach as (H1 & H2 & H3)%reachable_invariant.
  split; [lia|]. split; [done|]. split; [lia|].
  split; [unfold received; lia|]. split; [done|]. split.
  - intros i Hi.
    assert (0 < holders s); [|lia]. unfold holders.
    assert (Running ∈ filter (λ h, h = Running) (handlers s)) as Hin.
    { apply list_elem_of_filter. split; [done|]. by eapply list_elem_of_lookup_2. }
    destruct (filter _ _); [by apply elem_of_nil in Hin|simpl; lia].
  - intros s' i h Hstep Hh.
    destruct (step_handler _ _ _ _ _ Hstep Hh) as [Hsame|(-> & Hret & Hlen & Hsent)].
    + destruct h; [by left|done].
    + right. split; [done|]. split; [done|]. split.
      * unfold received. lia.
      * by eapply reachable_step.
Qed.

Lemma concurrency_cap_witness :
  let s := {| chanLen := 1; sent := 2; accept_pc := AtAccept;
              handlers := [Returned] |} in
  reachable 1 s ∧ holders s ≤ chanLen s ∧ chanLen s ≤ 1 ∧
  received s = returnedCount s.
Proof.
  intros s.
  pose (s1 := {| chanLen := 1; sent := 1; accept_pc := AtAccept; handlers := [] |}).
  pose (s2 := {| chanLen := 1; sent := 1; accept_pc := AtSend;
                 handlers := [Running] |}).
  pose (s3 := {| chanLen := 0; sent := 1; accept_pc := AtSend;
                 handlers := [Returned] |}).
  assert (reachable 1 s) as Hs.
  { apply (reachable_step 1 s3).
    - apply (reachable_step 1 s2).
      + apply (reachable_step 1 s1).
        * apply (reachable_step 1 initial); [apply reachable_initial|].
          apply (step_send 1 initial); [reflexivity|simpl; lia].
        * apply (step_accept 1 s1). reflexivity.
      + apply (step_return 1 s2 0); [reflexivity|simpl; lia].
    - apply (step_send 1 s3); [reflexivity|simpl; lia]. }
  split; [exact Hs|].
  destruct (concurrency_cap 1 s Hs) as (H1 & H2 & _ & H3 & _).
  split; [exact H1|]. split; [exact H2|exact H3].
Defined.

(* ===================================================================== *)
(** * Part III: further properties of the code *)
(* ===================================================================== *)

(** ** [normalizePath] and [strings.Split] *)

Lemma splitSlash_not_nil p : splitSlash p ≠ [].
Proof.
  induction p as [|x p IH]; [done|]. simpl.
  destruct (Ascii.eqb x "/"); [done|]. by destruct (splitSlash p).
Qed.

Lemma walkTokens_cons comp rest newPath :
  comp ≠ "" ∨ rest = [] →
  walkTokens (comp :: rest) newPath
  = applyComponent newPath comp ≫= walkTokens rest.
Proof.
  intros H. destruct rest as [|t ts].
  - simpl. by destruct (applyComponent newPath comp).
  - destruct H as [H|H]; [|done]. cbn [walkTokens].
    apply String.eqb_neq in H. by rewrite H.
Qed.

Lemma walkTokens_slash r newPath :
  walkTokens (splitSlash (String "/" r)) newPath = walkTokens (splitSlash r) newPath.
Proof.
  change (splitSlash (String "/" r)) with ("" :: splitSlash r).
  pose proof (splitSlash_not_nil r). by destruct (splitSlash r).
Qed.

Lemma skipSlashes_walk fuel path start newPath :
  len path - start ≤ fuel →
  walkTokens (splitSlash (str_drop (skipSlashes fuel path start) path)) newPath
  = walkTokens (splitSlash (str_drop start path)) newPath.
Proof.
  revert start. induction fuel as [|fuel IH]; intros start Hf; simpl; [done|].
  destruct (start <? len path) eqn:Hlt; simpl; [|done].
  apply Nat.ltb_lt in Hlt.
  destruct (byte_is path start "/") eqn:Hb; [|done].
  rewrite IH by lia.
  destruct (drop_lt start path Hlt) as [c Hc].
  rewrite byte_is_drop, Hc in Hb. apply ascii_eqb_true in Hb as ->.
  by rewrite Hc, walkTokens_slash.
Qed.

(** The loop of [normalizePath], entered with a component still to read,
    computes [walkTokens] on the pieces of the rest of the path. *)
Lemma normalizeLoop_tokens fuel path start end_ newPath :
  end_ ≤ start → len path - end_ < fuel → end_ < len path →
  normalizeLoop fuel path start end_ newPath
  = Some (walkTokens (splitSlash (str_drop start path)) newPath).
Proof.
  revert start end_ newPath.
  induction fuel as [|fuel IH]; intros start end_ newPath Hse Hf Hlt; [lia|].
  cbn [normalizeLoop]. rewrite (proj2 (Nat.ltb_lt _ _) Hlt).
  rewrite <- (skipSlashes_walk (len path) path start) by lia.
  destruct (skipSlashes_spec (len path) path start) as (S1 & S2 & S3 & _); [lia|].
  set (s' := skipSlashes (len path) path start) in *.
  destruct (skipComponent_spec (len path) path s') as (C1 & C2 & C3 & _ & C5); [lia|].
  set (e' := skipComponent (len path) path s') in *.
  set (comp := slice path s' e') in *.
  rewrite C5.
  set (rest := if e' <? len path then splitSlash (str_drop (S e') path) else []).
  assert (end_ < e') as Hprog.
  { destruct (decide (s' = end_)) as [->|]; [|lia]. apply C3; [done|]. by apply S3. }
  assert (comp ≠ "" ∨ rest = []) as Hcomp.
  { destruct (e' <? len path) eqn:E; [|by right]. left. apply Nat.ltb_lt in E.
    assert (s' < e') by (apply C3; [lia|apply S3; lia]).
    intros Hc. assert (len comp = 0) as Hl by (by rewrite Hc).
    unfold comp, slice in Hl. rewrite len_take, len_drop in Hl. lia. }
  assert (∀ np, normalizeLoop fuel path (e' + 1) e' np = Some (walkTokens rest np))
    as Hnext.
  { intros np. unfold rest. destruct (e' <? len path) eqn:E.
    - rewrite IH; [by rewrite Nat.add_1_r|lia|lia|by apply Nat.ltb_lt].
    - destruct fuel; simpl; by rewrite E. }
  rewrite (walkTokens_cons _ _ _ Hcomp). unfold applyComponent.
  destruct (String.eqb comp "..").
  { destruct (length newPath =? 0); [done|]. by rewrite Hnext. }
  destruct (String.eqb comp "."); simpl; by rewrite Hnext.
Qed.

(** [normalizePath] on the bytes of the path and [normalizeTokens] on its
    pieces compute the same. *)
Lemma normalizePath_walk (path : string) :
  normalizePath path = normalizeTokens path.
Proof.
  unfold normalizePath, normalizeTokens.
  destruct path as [|c path]; [done|].
  rewrite normalizeLoop_tokens; [|lia|lia|simpl; lia].
  rewrite str_drop_0. replace (String.eqb (String c path) "") with false by done.
  by destruct (walkTokens _ _).
Qed.

Lemma splitSlash_pieces_no_slash p :
  Forall (λ c, ContainsByte c "/" = false) (splitSlash p).
Proof.
  induction p as [|x p IH]; [by repeat constructor|]. simpl.
  destruct (Ascii.eqb x "/") eqn:E; [by constructor|].
  destruct (splitSlash p) as [|h t]; [by repeat constructor; simpl; rewrite E|].
  apply Forall_cons in IH as [Hh Ht]. constructor; [|done]. simpl. by rewrite E.
Qed.

Lemma splitSlash_app_slash a r :
  splitSlash (a +:+ String "/" r) = splitSlash a ++ splitSlash r.
Proof.
  induction a as [|x a IH]; [done|]. rewrite app_cons. simpl. rewrite IH.
  destruct (Ascii.eqb x "/"); [done|].
  pose proof (splitSlash_not_nil a). by destruct (splitSlash a).
Qed.

(** A kept piece other than a final empty one. *)
Lemma applyComponent_push newPath c :
  segment_ok c → applyComponent newPath c = Some (newPath ++ [c]).
Proof.
  intros (_ & H1 & H2). unfold applyComponent.
  apply String.eqb_neq in H1, H2. by rewrite H2, H1.
Qed.

Lemma walkTokens_kept g last acc :
  Forall (λ c, segment_ok c ∧ c ≠ "") g → segment_ok last →
  walkTokens (g ++ [last]) acc = Some (acc ++ g ++ [last]).
Proof.
  revert acc. induction g as [|c g IH]; intros acc Hg Hlast.
  - simpl. by apply applyComponent_push.
  - apply Forall_cons in Hg as [[Hc Hne] Hg].
    change ((c :: g) ++ [last]) with (c :: (g ++ [last])).
    rewrite walkTokens_cons by by left.
    rewrite applyComponent_push by done. simpl.
    rewrite IH by done. by rewrite <- app_assoc.
Qed.

Lemma applyComponent_shape newPath c out :
  ContainsByte c "/" = false →
  Forall (λ c, segment_ok c ∧ c ≠ "") newPath →
  applyComponent newPath c = Some out →
  Forall (λ c, segment_ok c ∧ c ≠ "") out ∨
  (c = "" ∧ out = newPath ++ [""]).
Proof.
  intros Hc Hnp. unfold applyComponent.
  destruct (String.eqb c "..") eqn:E1.
  { destruct (length newPath =? 0); [done|]. intros [= <-]. left.
    by apply Forall_take. }
  destruct (String.eqb c ".") eqn:E2; simpl; intros [= <-]; [by left|].
  apply String.eqb_neq in E1, E2.
  destruct (decide (c = "")) as [->|Hne]; [by right|]. left.
  apply Forall_app. split; [done|]. by apply Forall_singleton.
Qed.

(** What [walkTokens] keeps: pieces that hold no slash, are neither [.] nor
    [..] and are empty only in the last place. *)
Lemma walkTokens_shape tokens newPath out :
  Forall (λ c, ContainsByte c "/" = false) tokens →
  Forall (λ c, segment_ok c ∧ c ≠ "") newPath →
  walkTokens tokens newPath = Some out →
  ∃ g, Forall (λ c, segment_ok c ∧ c ≠ "") g ∧ (out = g ∨ out = g ++ [""]).
Proof.
  revert newPath. induction tokens as [|c rest IH]; intros newPath Ht Hnp.
  { intros [= <-]. exists newPath. by split; [|left]. }
  apply Forall_cons in Ht as [Hc Hrest].
  destruct rest as [|t ts].
  - simpl. intros Ha.
    apply applyComponent_shape in Ha as [H|[_ ->]]; try done.
    + exists out. by split; [|left].
    + exists newPath. by split; [|right].
  - cbn [walkTokens]. destruct (String.eqb c "") eqn:E; [by apply IH|].
    apply String.eqb_neq in E.
    destruct (applyComponent newPath c) as [np|] eqn:Ha; [|done]. simpl.
    apply applyComponent_shape in Ha as [H|[? _]]; try done.
    by apply IH.
Qed.

Lemma walkTokens_fixed out :
  out ≠ [] →
  (∃ g, Forall (λ c, segment_ok c ∧ c ≠ "") g ∧ (out = g ∨ out = g ++ [""])) →
  walkTokens out [] = Some out.
Proof.
  intros Hne (g & Hg & [->| ->]).
  - destruct g as [|l g _] using rev_ind; [done|].
    apply Forall_app in Hg as [Hg [[Hl _] _]%Forall_cons].
    by rewrite walkTokens_kept.
  - rewrite walkTokens_kept; [done|done|]. by repeat split.
Qed.

(** X1. [normalizePath] is idempotent: a path that it returns is returned
    unchanged when it is normalized again. *)
Theorem normalizePath_idempotent (path out : string) :
  normalizePath path = Some out → normalizePath out = Some out.
Proof.
  rewrite !normalizePath_walk. unfold normalizeTokens at 1.
  destruct (String.eqb path ""); [by intros [= <-]|].
  destruct (walkTokens (splitSlash path) []) as [np|] eqn:Hw; [|done].
  simpl. intros [= <-].
  pose proof (walkTokens_shape _ _ _ (splitSlash_pieces_no_slash path)
                (Forall_nil_2 _) Hw) as Hshape.
  assert (Forall segment_ok np) as Hok.
  { destruct Hshape as (g & Hg & [->| ->]).
    - eapply Forall_impl; [exact Hg|]. by intros ? [? _].
    - apply Forall_app. split; [|by repeat constructor].
      eapply Forall_impl; [exact Hg|]. by intros ? [? _]. }
  unfold normalizeTokens. destruct np as [|c np]; [done|].
  rewrite flatten_cons. replace (String.eqb (String "/" _) "") with false by done.
  rewrite <- flatten_cons, splitSlash_flatten by done.
  change (walkTokens ("" :: c :: np) []) with (walkTokens (c :: np) []).
  by rewrite walkTokens_fixed.
Qed.

Lemma normalizePath_idempotent_witness :
  normalizePath "a//b/../c/./" = Some "/a/c/" ∧
  normalizePath "/a/c/" = Some "/a/c/".
Proof.
  split; [reflexivity|].
  apply (normalizePath_idempotent "a//b/../c/./" "/a/c/"). reflexivity.
Defined.

(** X2. A path with no leading slash is normalized as if it had one. *)
Theorem normalizePath_leading_slash (path : string) :
  path ≠ "" → normalizePath (String "/" path) = normalizePath path.
Proof.
  intros Hne. rewrite !normalizePath_walk. unfold normalizeTokens.
  apply String.eqb_neq in Hne. rewrite Hne.
  replace (String.eqb (String "/" path) "") with false by done.
  by rewrite walkTokens_slash.
Qed.

Lemma normalizePath_leading_slash_witness :
  normalizePath "/foo" = normalizePath "foo" ∧ normalizePath "foo" = Some "/foo".
Proof.
  split; [|reflexivity]. apply (normalizePath_leading_slash "foo"). discriminate.
Defined.

Lemma walkTokens_more c rest newPath :
  rest ≠ [] →
  walkTokens (c :: rest) newPath
  = if String.eqb c "" then walkTokens rest newPath
    else applyComponent newPath c ≫= walkTokens rest.
Proof. by destruct rest. Qed.

Lemma walkTokens_app_skip l1 l2 newPath :
  l2 ≠ [] → walkTokens (l1 ++ "" :: l2) newPath = walkTokens (l1 ++ l2) newPath.
Proof.
  intros Hl2. revert newPath. induction l1 as [|c l1 IH]; intros newPath.
  - simpl. by destruct l2.
  - change ((c :: l1) ++ "" :: l2) with (c :: (l1 ++ "" :: l2)).
    change ((c :: l1) ++ l2) with (c :: (l1 ++ l2)).
    rewrite !walkTokens_more; [|by destruct l1, l2|by destruct l1].
    destruct (String.eqb c ""); [done|].
    destruct (applyComponent newPath c); [simpl|done]. apply IH.
Qed.

(** X3. Consecutive slashes count for one, wherever they are. *)
Theorem normalizePath_double_slash (a b : string) :
  normalizePath (a +:+ "//" +:+ b) = normalizePath (a +:+ "/" +:+ b).
Proof.
  rewrite !normalizePath_walk. unfold normalizeTokens.
  change (a +:+ "//" +:+ b) with (a +:+ String "/" (String "/" b)).
  change (a +:+ "/" +:+ b) with (a +:+ String "/" b).
  replace (String.eqb (a +:+ String "/" (String "/" b)) "") with false
    by by destruct a.
  replace (String.eqb (a +:+ String "/" b) "") with false by by destruct a.
  rewrite !splitSlash_app_slash.
  change (splitSlash (String "/" b)) with ("" :: splitSlash b).
  by rewrite walkTokens_app_skip by apply splitSlash_not_nil.
Qed.

(** ** The request reader *)

Lemma ContainsByte_app a b c :
  ContainsByte (a +:+ b) c = ContainsByte a c || ContainsByte b c.
Proof.
  induction a as [|x a IH]; [done|]. rewrite app_cons. simpl.
  by rewrite IH, orb_assoc.
Qed.

Lemma ContainsByte_take n s c :
  ContainsByte s c = false → ContainsByte (str_take n s) c = false.
Proof.
  intros H. rewrite <- (take_drop_app n s), ContainsByte_app in H.
  by apply orb_false_iff in H as [? _].
Qed.

Lemma IndexByte_None s c : IndexByte s c = None → ContainsByte s c = false.
Proof.
  induction s as [|x s IH]; [done|]. simpl.
  destruct (Ascii.eqb x c); [done|]. destruct (IndexByte s c); [done|]. auto.
Qed.

Lemma IndexByte_Some s c i :
  IndexByte s c = Some i →
  i < len s ∧ ContainsByte (str_take i s) c = false ∧ byte_is s i c = true.
Proof.
  revert i. induction s as [|x s IH]; intros i; [done|]. simpl.
  destruct (Ascii.eqb x c) eqn:E.
  - intros [= <-]. unfold byte_is. simpl. split; [lia|]. by split.
  - destruct (IndexByte s c) as [j|]; [|done]. simpl. intros [= <-].
    destruct (IH j eq_refl) as (H1 & H2 & H3). split; [lia|].
    rewrite str_take_S. simpl. by rewrite E, H2.
Qed.

Lemma Cut_before_clean s c d :
  ContainsByte s d = false → ContainsByte (Cut s c).1.1 d = false.
Proof.
  intros H. pose proof (Cut_spec s c) as Hs.
  destruct (Cut s c) as [[before after] found]. simpl.
  destruct Hs as (_ & Hs & _). destruct found; [|by subst].
  rewrite Hs, ContainsByte_app in H. by apply orb_false_iff in H as [? _].
Qed.

Lemma readLoop_clean reads requestBuf request :
  ContainsByte requestBuf NUL = false → ContainsByte requestBuf LF = false →
  readLoop reads requestBuf = inl request →
  ContainsByte request NUL = false ∧ ContainsByte request LF = false ∧
  ContainsByte request CR = false.
Proof.
  revert requestBuf. induction reads as [|rd reads IH]; intros requestBuf Hn Hl;
    cbn [readLoop].
  { by destruct (_ <? _). }
  destruct (_ <? _); [|done]. destruct rd as [chunk|]; [|done].
  destruct (ContainsByte chunk NUL) eqn:Hcn; [done|].
  pose proof (Cut_spec chunk LF) as Hs.
  pose proof (Cut_before_clean chunk LF NUL Hcn) as Hbn.
  destruct (Cut chunk LF) as [[before after] foundLF]. simpl in Hbn.
  destruct Hs as (Hbl & _ & _).
  assert (ContainsByte (requestBuf +:+ before) NUL = false) as Hn'
    by (by rewrite ContainsByte_app, Hn, Hbn).
  assert (ContainsByte (requestBuf +:+ before) LF = false) as Hl'
    by (by rewrite ContainsByte_app, Hl, Hbl).
  destruct foundLF; [|by apply IH].
  destruct (IndexByte _ CR) as [crIndex|] eqn:Hcr.
  - destruct (crIndex =? _) eqn:E; [|done]. simpl. intros [= <-].
    apply Nat.eqb_eq in E. rewrite <- E.
    apply IndexByte_Some in Hcr as (_ & Hcr & _).
    split; [by apply ContainsByte_take|]. split; [by apply ContainsByte_take|done].
  - intros [= <-]. by rewrite (IndexByte_None _ _ Hcr).
Qed.

(** X4. A request that [readRequest] returns holds no NUL, no line feed and
    no carriage return. *)
Theorem readRequest_clean (reads : list readResult) (request : string) :
  readRequest reads = inl request →
  ContainsByte request NUL = false ∧ ContainsByte request LF = false ∧
  ContainsByte request CR = false.
Proof. by apply readLoop_clean. Qed.

Lemma readRequest_clean_witness :
  readRequest [ReadData ("/foo" +:+ String CR (String LF ""))] = inl "/foo" ∧
  ContainsByte "/foo" CR = false.
Proof.
  split; [reflexivity|].
  destruct (readRequest_clean [ReadData ("/foo" +:+ String CR (String LF ""))] "/foo")
    as (_ & _ & H); [reflexivity|exact H].
Defined.

(** X5. When no read delivers more than [readChunkSize] bytes, a request
    that [readRequest] returns is shorter than [maxRequestSize +
    readChunkSize - 1] bytes. *)
Theorem readRequest_bound (reads : list readResult) (request : string) :
  Forall chunk_ok reads →
  readRequest reads = inl request →
  len request < maxRequestSize + readChunkSize - 1.
Proof. apply readLoop_bound. Qed.

Lemma readRequest_bound_witness :
  len "/foo" < maxRequestSize + readChunkSize - 1.
Proof.
  apply (readRequest_bound [ReadData ("/foo" +:+ String LF "")] "/foo").
  - constructor; [|constructor]. apply Nat.leb_le. vm_compute. reflexivity.
  - reflexivity.
Defined.

Lemma Cut_absent s c : ContainsByte s c = false → Cut s c = (s, "", false).
Proof.
  induction s as [|x s IH]; [done|]. simpl. intros [Hx Hs]%orb_false_iff.
  by rewrite Hx, (IH Hs).
Qed.

(** A string without [c] that starts a string is a part of what stands
    before the first [c] of it. *)
Lemma prefix_before a x b c y :
  a +:+ x = b +:+ String c y → ContainsByte a c = false →
  ∃ b', b = a +:+ b' ∧ x = b' +:+ String c y.
Proof.
  revert b. induction a as [|h a IH]; intros b Heq Ha.
  - by exists b.
  - simpl in Ha. apply orb_false_iff in Ha as [Hh Ha].
    destruct b as [|h' b].
    + injection Heq as -> _. by rewrite Ascii.eqb_refl in Hh.
    + rewrite !app_cons in Heq. injection Heq as -> Heq.
      destruct (IH b Heq Ha) as (b' & -> & ->). by exists b'.
Qed.

Lemma ContainsByte_here c r : ContainsByte (String c r) c = true.
Proof. simpl. by rewrite Ascii.eqb_refl. Qed.

Lemma len_str_concat_cons c cs : str_concat (c :: cs) = c +:+ str_concat cs.
Proof. reflexivity. Qed.

Lemma readLoop_line chunks requestBuf line (cr : bool) rest :
  let full := line +:+ (if cr then String CR "" else "") in
  requestBuf +:+ str_concat chunks = full +:+ String LF rest →
  ContainsByte requestBuf LF = false →
  ContainsByte line LF = false → ContainsByte line CR = false →
  Forall (λ c, ContainsByte c NUL = false) chunks →
  len full < maxRequestSize →
  readLoop (ReadData <$> chunks) requestBuf = inl line.
Proof.
  intros full Heq Hbuf Hl Hc Hn Hlen.
  assert (ContainsByte full LF = false) as Hfull.
  { unfold full. rewrite ContainsByte_app, Hl. by destruct cr. }
  revert requestBuf Heq Hbuf.
  induction Hn as [|chunk chunks Hchunk Hn IH]; intros requestBuf Heq Hbuf.
  { exfalso. unfold str_concat in Heq. simpl in Heq. rewrite app_empty_r in Heq.
    rewrite Heq, ContainsByte_app, ContainsByte_here in Hbuf.
    by rewrite orb_true_r in Hbuf. }
  rewrite len_str_concat_cons in Heq.
  destruct (prefix_before _ _ _ _ _ Heq Hbuf) as (full' & Hfull' & Hrest).
  assert (len requestBuf < maxRequestSize) as Hlt.
  { rewrite Hfull', len_app in Hlen. lia. }
  rewrite fmap_cons. cbn [readLoop].
  rewrite (proj2 (Nat.ltb_lt _ _) Hlt), Hchunk.
  assert (ContainsByte full' LF = false) as Hf'.
  { rewrite Hfull', ContainsByte_app in Hfull. by apply orb_false_iff in Hfull as [_ ?]. }
  destruct (ContainsByte chunk LF) eqn:Hcl.
  - pose proof (Cut_spec chunk LF) as Hs. pose proof (Cut_found chunk LF) as Hf.
    destruct (Cut chunk LF) as [[before after] foundLF]. simpl in Hf.
    rewrite Hcl in Hf. subst foundLF. destruct Hs as (Hb & Hs & _).
    rewrite Hs, app_assoc' in Hrest. change ((String LF after) +:+ str_concat chunks)
      with (String LF (after +:+ str_concat chunks)) in Hrest.
    destruct (prefix_before _ _ _ _ _ Hrest Hb) as (t & -> & Ht).
    destruct t as [|x t].
    2: { exfalso. rewrite app_cons in Ht. injection Ht as <- _.
         rewrite ContainsByte_app, ContainsByte_here in Hf'.
         by rewrite orb_true_r in Hf'. }
    rewrite app_empty_r in Hfull'. rewrite <- Hfull'. unfold full.
    destruct cr.
    + assert (IndexByte (line +:+ String CR "") CR = Some (len line)) as ->.
      { clear -Hc. induction line as [|x line IH]; [done|]. rewrite app_cons. simpl in *.
        apply orb_false_iff in Hc as [Hx Hc]. by rewrite Hx, (IH Hc). }
      rewrite len_app. simpl. replace (len line + 1 - 1) with (len line) by lia.
      by rewrite Nat.eqb_refl, str_take_app.
    + rewrite app_empty_r.
      assert (IndexByte line CR = None) as ->; [|done].
      clear -Hc. induction line as [|x line IH]; [done|]. simpl in *.
      apply orb_false_iff in Hc as [Hx Hc]. by rewrite Hx, (IH Hc).
  - rewrite (Cut_absent _ _ Hcl). apply IH.
    + by rewrite app_assoc'.
    + by rewrite ContainsByte_app, Hbuf, Hcl.
Qed.

(** X6. However the connection cuts it into reads, a line without NUL,
    carriage return or line feed that is followed by LF or by CR LF is
    returned by [readRequest] as it was sent, provided that it (with its CR)
    is shorter than [maxRequestSize] and that no NUL comes with the reads. *)
Theorem readRequest_line (chunks : list string) (line : string) (cr : bool)
    (rest : string) :
  str_concat chunks
  = line +:+ (if cr then String CR "" else "") +:+ String LF rest →
  ContainsByte line LF = false → ContainsByte line CR = false →
  Forall (λ c, ContainsByte c NUL = false) chunks →
  len line + (if cr then 1 else 0) < maxRequestSize →
  readRequest (ReadData <$> chunks) = inl line.
Proof.
  intros Heq Hl Hc Hn Hlen. unfold readRequest.
  apply (readLoop_line chunks "" line cr rest); try done.
  - change ("" +:+ str_concat chunks) with (str_concat chunks).
    by rewrite Heq, app_assoc'.
  - rewrite len_app. destruct cr; simpl; lia.
Qed.

Lemma readRequest_line_witness :
  readRequest (ReadData <$> ["/fo"; "o" +:+ String TAB "x" +:+ String CR "";
                             String LF "ignored"])
  = inl ("/foo" +:+ String TAB "x").
Proof.
  apply (readRequest_line _ ("/foo" +:+ String TAB "x") true "ignored").
  - reflexivity.
  - reflexivity.
  - reflexivity.
  - repeat constructor.
  - apply Nat.ltb_lt. vm_compute. reflexivity.
Defined.

Lemma readLoop_too_big chunks requestBuf :
  Forall (λ c, ContainsByte c NUL = false ∧ ContainsByte c LF = false) chunks →
  maxRequestSize ≤ len requestBuf + len (str_concat chunks) →
  readLoop (ReadData <$> chunks) requestBuf = inr RequestTooBig.
Proof.
  intros Hok. revert requestBuf.
  induction Hok as [|chunk chunks [Hn Hl] Hok IH]; intros requestBuf Hlen.
  - simpl in *. replace (len requestBuf <? maxRequestSize) with false; [done|].
    symmetry. apply Nat.ltb_ge. lia.
  - rewrite fmap_cons. cbn [readLoop].
    destruct (len requestBuf <? maxRequestSize); [|done].
    rewrite Hn, (Cut_absent _ _ Hl). apply IH.
    rewrite len_str_concat_cons, len_app in Hlen. rewrite len_app. lia.
Qed.

(** X7. When the reads deliver [maxRequestSize] bytes or more without any
    line feed (and without NUL), [readRequest] fails with "request too
    big". *)
Theorem readRequest_too_big (chunks : list string) :
  Forall (λ c, ContainsByte c NUL = false ∧ ContainsByte c LF = false) chunks →
  maxRequestSize ≤ len (str_concat chunks) →
  readRequest (ReadData <$> chunks) = inr RequestTooBig.
Proof. intros Hok Hlen. by apply readLoop_too_big. Qed.

Lemma readRequest_too_big_witness :
  readRequest (ReadData <$> [str_repeat "a" 4096; str_repeat "a" 4096;
                             str_repeat "a" 4096; str_repeat "a" 4096])
  = inr RequestTooBig.
Proof.
  apply readRequest_too_big.
  - repeat (constructor; [split; vm_compute; reflexivity|]). constructor.
  - apply Nat.leb_le. vm_compute. reflexivity.
Defined.

(** ** The request splitter *)

(** X8. [splitRequest] takes a request apart at its tabs: the selector is
    what stands before the first tab (the whole request when there is none),
    the search string is what stands between the first tab and the next one,
    and whatever follows a second tab is dropped; the path holds no [?]. *)
Theorem splitRequest_parts (request : string) :
  let '(selector, path, query, search) := splitRequest request in
  ContainsByte selector TAB = false ∧ ContainsByte search TAB = false ∧
  ContainsByte path "?" = false ∧
  ((request = selector ∧ search = "") ∨
   ∃ dropped, request = selector +:+ String TAB (search +:+ dropped) ∧
     (dropped = "" ∨ HasPrefix dropped (String TAB "") = true)).
Proof.
  unfold splitRequest.
  pose proof (Cut_spec request TAB) as H1.
  destruct (Cut request TAB) as [[selectorBytes searchBytes] f1].
  pose proof (Cut_spec searchBytes TAB) as H2.
  destruct (Cut searchBytes TAB) as [[searchBytes' rest] f2].
  pose proof (Cut_spec selectorBytes "?") as H3.
  destruct (Cut selectorBytes "?") as [[pathBytes queryBytes] found].
  destruct H1 as (H1 & H1' & H1''), H2 as (H2 & H2' & H2''), H3 as (H3 & _).
  split; [done|]. split; [done|]. split; [done|].
  destruct f1.
  - right. exists (if f2 then String TAB rest else "").
    split; [|destruct f2; [right|left]; done].
    rewrite H1'. do 2 f_equal. destruct f2; [done|]. by rewrite app_empty_r.
  - left. split; [done|]. rewrite (H1'' eq_refl) in H2'.
    by destruct f2, searchBytes'.
Qed.

(** ** The path resolver *)



Lemma str_drop_add a k path : str_drop (a + k) path = str_drop k (str_drop a path).
Proof.
  revert path. induction a as [|a IH]; intros path; [done|].
  destruct path as [|x path].
  - change ("" = str_drop k ""). by rewrite str_drop_empty.
  - apply (IH path).
Qed.

Lemma str_take_add a k path :
  str_take (a + k) path = str_take a path +:+ str_take k (str_drop a path).
Proof.
  revert path. induction a as [|a IH]; intros path.
  - by rewrite str_take_0.
  - destruct path as [|x path].
    + change ("" = "" +:+ str_take k ""). by rewrite str_take_empty.
    + change (String x (str_take (a + k) path)
              = String x (str_take a path) +:+ str_take k (str_drop a path)).
      by rewrite IH.
Qed.

Lemma slice_drop path a b :
  a ≤ b → slice path a b +:+ str_drop b path = str_drop a path.
Proof.
  intros Hab. unfold slice. replace b with (a + (b - a)) at 2 by lia.
  by rewrite str_drop_add, take_drop_app.
Qed.

Lemma take_slice path a b :
  a ≤ b → str_take a path +:+ slice path a b = str_take b path.
Proof.
  intros Hab. unfold slice. replace b with (a + (b - a)) at 2 by lia.
  by rewrite str_take_add.
Qed.

(** The invariant of the walk again, with what the loop knows of a new
    cursor: it lies further on, within the path, at a slash or at the end. *)
Lemma walkPath_invariant_cursor os_Stat excluded (P : walk → Prop) path :
  (∀ w, P w → w_n w ≤ len path) →
  (∀ w, P w → statsAsFile os_Stat excluded (str_take (w_n w) path) →
     P {| w_n := w_n w; w_split := w_n w; w_fsPath := str_take (w_n w) path;
          w_err := w_err w |}) →
  (∀ w ip, P w → ip ∈ indexPaths →
     canServeFile os_Stat excluded (str_take (w_n w) path +:+ ip) = true →
     P {| w_n := w_n w; w_split := w_n w;
          w_fsPath := str_take (w_n w) path +:+ ip; w_err := None |}) →
  (∀ w n, P w → w_n w < n ≤ len path →
     n = len path ∨ byte_is path n "/" = true →
     P {| w_n := n; w_split := w_split w; w_fsPath := w_fsPath w;
          w_err := w_err w |}) →
  ∀ fuel w w', P w → walkPath os_Stat excluded fuel path w = Some w' → P w'.
Proof.
  intros Hbound Hfile Hindex Hnext.
  induction fuel as [|fuel IH]; intros w w' Hw; [done|].
  rewrite walkPath_S. cbv zeta.
  destruct (getStats os_Stat excluded (str_take (w_n w) path))
    as [[[isFile isDir] isCGI] pathErr] eqn:Est.
  destruct isFile.
  { intros [= <-]. apply Hfile; [done|]. unfold statsAsFile. by rewrite Est. }
  destruct (negb (bool_decide (pathErr = None)) || negb isDir).
  { by intros [= <-]. }
  set (w1 := fold_left (probeIndex os_Stat excluded (str_take (w_n w) path)) indexPaths w).
  assert (P w1 ∧ w_n w1 = w_n w) as [Hw1 Hn1].
  { unfold w1.
    destruct (probes_cases os_Stat excluded (str_take (w_n w) path) w)
      as [[-> _]|(ip & Hip & Hs & ->)]; [done|]. split; [by apply Hindex|done]. }
  destruct (w_n w =? len path) eqn:E; [by intros [= <-]|].
  apply Nat.eqb_neq in E. pose proof (Hbound w Hw).
  destruct (nextSlash_spec (len path) path (S (w_n w))) as [Hr1 Hr2]; [lia|lia|].
  assert (P {| w_n := nextSlash (len path) path (S (w_n w)); w_split := w_split w1;
               w_fsPath := w_fsPath w1; w_err := w_err w1 |}) as Hw2.
  { apply Hnext; [done|rewrite Hn1; lia|done]. }
  destruct (_ && _); [by intros [= <-]|by apply IH].
Qed.

Lemma HasPrefix_drop_slash path n :
  byte_is path n "/" = true → HasPrefix (str_drop n path) "/" = true.
Proof.
  rewrite byte_is_drop. destruct (str_drop n path) as [|x r]; [done|].
  by intros ->%ascii_eqb_true.
Qed.

(** What a successful [splitScriptPathAndPathInfo] returns, in terms of the
    path and of the length of the document root in it. *)
Lemma splitScriptPathAndPathInfo_sound os_Stat excluded path startLength r :
  startLength ≤ len path →
  splitScriptPathAndPathInfo os_Stat excluded path startLength = Some r →
  err r = None →
  scriptName r +:+ pathInfo r = str_drop startLength path ∧
  (fsPath r = str_take startLength path +:+ scriptName r ∨
   ∃ ip, ip ∈ indexPaths ∧
     fsPath r = str_take startLength path +:+ scriptName r +:+ ip) ∧
  (pathInfo r = "" ∨ pathInfo r = str_drop startLength path ∨
   HasPrefix (pathInfo r) "/" = true).
Proof.
  intros Hstart. unfold splitScriptPathAndPathInfo.
  destruct (getStats os_Stat excluded path) as [[[isFile isDir] isCGI] pathErr].
  destruct (bool_decide (pathErr = None) && isFile).
  { intros [= <-] _. simpl. rewrite app_empty_r, take_drop_app.
    split; [done|]. split; by left. }
  destruct (isExcluded excluded cgiExt); [by intros [= <-]|].
  destruct (walkPath _ _ _ _ _) as [w|] eqn:Hw; [|done]. simpl. intros [= <-]. simpl.
  revert Hw.
  set (cursor_ok := λ n, n = startLength ∨ n = len path ∨ byte_is path n "/" = true).
  set (P := λ w : walk,
         startLength ≤ w_split w ∧ w_split w ≤ w_n w ∧ w_n w ≤ len path ∧
         cursor_ok (w_n w) ∧ cursor_ok (w_split w) ∧
         (w_err w = None →
            w_fsPath w = str_take (w_split w) path ∨
            ∃ ip, ip ∈ indexPaths ∧ w_fsPath w = str_take (w_split w) path +:+ ip)).
  intros Hw He.
  assert (P w) as (H1 & H2 & H3 & _ & H5 & H6).
  { revert Hw. apply (walkPath_invariant_cursor os_Stat excluded P).
    - by intros ? (_ & _ & ? & _).
    - intros w1 (W1 & W2 & W3 & W4 & W5 & W6) _.
      repeat split; simpl; [lia|lia|done|done|done|by left].
    - intros w1 ip (W1 & W2 & W3 & W4 & W5 & W6) Hip _.
      repeat split; simpl; [lia|lia|done|done|done|]. intros _. right. by exists ip.
    - intros w1 n (W1 & W2 & W3 & W4 & W5 & W6) Hn Hc.
      repeat split; simpl; [lia|lia|lia| |done|done]. by right.
    - repeat split; simpl; [lia|lia|lia|by left|by left|done]. }
  split; [by apply slice_drop|]. split.
  - destruct (H6 He) as [->|(ip & Hip & ->)].
    + left. by rewrite take_slice.
    + right. exists ip. split; [done|]. by rewrite <- app_assoc', take_slice.
  - destruct H5 as [->|[->|Hs]].
    + right. by left.
    + left. by apply str_drop_all.
    + right. right. by apply HasPrefix_drop_slash.
Qed.

Lemma splitPath_resolution os_Stat excluded (rootPath path : string) (r : resolved) :
  splitPath os_Stat excluded rootPath path = Some r →
  err r = None →
  ∃ p normalized,
    PathUnescape path = Some p ∧ normalizePath p = Some normalized ∧
    scriptName r +:+ pathInfo r = normalized ∧
    (fsPath r = rootPath +:+ scriptName r ∨
     ∃ ip, ip ∈ indexPaths ∧ fsPath r = rootPath +:+ scriptName r +:+ ip) ∧
    (pathInfo r = "" ∨ HasPrefix (pathInfo r) "/" = true) ∧
    statsAsFile os_Stat excluded (fsPath r).
Proof.
  unfold splitPath. destruct (PathUnescape path) as [p|]; [|by intros [= <-]].
  destruct (ContainsByte p NUL); [by intros [= <-]|].
  destruct (normalizePath p) as [q|] eqn:Hq; [|by intros [= <-]].
  intros Hr He. exists p, q. split; [done|]. split; [done|].
  pose proof (splitScriptPathAndPathInfo_statsAsFile _ _ _ _ _ Hr He) as Hfile.
  apply splitScriptPathAndPathInfo_sound in Hr as (S1 & S2 & S3);
    [|rewrite len_app; lia|done].
  rewrite str_drop_app in S1, S3. rewrite str_take_app in S2.
  split; [done|]. split; [done|]. split; [|done].
  destruct S3 as [?|[Hp|?]]; [by left| |by right].
  rewrite Hp. apply normalizePath_Some in Hq as (np & -> & _).
  destruct (flatten_prefix np); [by left|by right].
Qed.

(** X10. A successful [splitPath] is consistent with the path it resolved:
    the script name followed by the path info is the normalized path; the
    file is the root followed by the script name, or by the script name and
    the name of an index file; the path info is empty or begins with a
    slash; and the file stats as a regular file that is not excluded. *)
Theorem splitPath_sound os_Stat excluded (rootPath path : string) (r : resolved) :
  splitPath os_Stat excluded rootPath path = Some r →
  err r = None →
  ∃ p normalized,
    PathUnescape path = Some p ∧ normalizePath p = Some normalized ∧
    scriptName r +:+ pathInfo r = normalized ∧
    (fsPath r = rootPath +:+ scriptName r ∨
     ∃ ip, ip ∈ indexPaths ∧ fsPath r = rootPath +:+ scriptName r +:+ ip) ∧
    (pathInfo r = "" ∨ HasPrefix (pathInfo r) "/" = true) ∧
    statsAsFile os_Stat excluded (fsPath r).
Proof. exact (splitPath_resolution os_Stat excluded rootPath path r). Qed.

Lemma splitPath_sound_witness :
  testSplitPath "/foo/bar/path/info"
  = resolvedOk "tests/foo/bar/index.cgi" "/foo/bar" "/path/info" ∧
  ∃ p normalized,
    PathUnescape "/foo/bar/path/info" = Some p ∧
    normalizePath p = Some normalized ∧
    "/foo/bar" +:+ "/path/info" = normalized.
Proof.
  assert (testSplitPath "/foo/bar/path/info"
          = resolvedOk "tests/foo/bar/index.cgi" "/foo/bar" "/path/info") as H
    by (vm_compute; reflexivity).
  split; [exact H|].
  destruct (splitPath_sound _ _ _ _ _ H eq_refl) as (p & q & H1 & H2 & H3 & _).
  exists p, q. split; [exact H1|]. split; [exact H2|exact H3].
Defined.

(** ** Responses *)

(** X11. What [handleConn] answers to a request is one of two things: the
    error entry of one of the four errors, with its status and without a
    child; or a response with status 200 over a path that [os.Open] opened
    and that stats as a regular file, which is the file itself when its name
    does not end in [.cgi], and otherwise the standard output of the child
    that was started from it. *)
Theorem response_kinds configMap docRoot uptime requestCount bytesTransferred
    os_Stat excluded os_Open spawn conn (reads : list readResult)
    (resp : response) :
  handleConnResponse configMap docRoot uptime requestCount bytesTransferred
    os_Stat excluded os_Open spawn conn reads = Some resp →
  (∃ e, e ∈ [badRequestError; forbiddenError; fileNotFoundError;
             internalServerErrorError] ∧
     resp = makeErrorResponse configMap e) ∨
  (resp_status resp = okStatus ∧
   ∃ f, os_Open f = None ∧ statsAsFile os_Stat excluded f ∧
     ((HasSuffix f cgiExt = false ∧ resp_reader resp = FileReader f ∧
       resp_cmd resp = None) ∨
      (HasSuffix f cgiExt = true ∧
       ∃ cmd, Path cmd = f ∧ spawn cmd = Started ∧
         resp_reader resp = StdoutPipe cmd ∧ resp_cmd resp = Some cmd))).
Proof.
  unfold handleConnResponse.
  destruct (readRequest reads) as [request|].
  2: { intros [= <-]. left. exists badRequestError. split; [set_solver|done]. }
  destruct (splitRequest request) as [[[selector path] query] search].
  unfold getResponseForRequest.
  destruct (splitPath os_Stat excluded docRoot path) as [r|] eqn:Hr; [|done]. simpl.
  destruct (err r) as [e|] eqn:He.
  { intros [= <-]. left. exists e. split; [|done].
    destruct (splitPath_errors _ _ _ _ _ _ Hr He) as [-> | [-> | ->]]; set_solver. }
  pose proof (splitPath_resolution _ _ _ _ _ Hr He) as (_ & _ & _ & _ & _ & _ & _ & Hfile).
  intros [= <-]. unfold getResponseFromPath.
  destruct (os_Open (fsPath r)) as [e|] eqn:Hopen.
  { left. destruct (os_IsNotExist e);
      [exists fileNotFoundError|exists forbiddenError]; (split; [set_solver|done]). }
  destruct (HasSuffix (fsPath r) cgiExt) eqn:Hcgi.
  - unfold runCGI. destruct (spawn _) eqn:Hspawn.
    + left. exists internalServerErrorError. split; [set_solver|done].
    + left. exists internalServerErrorError. split; [set_solver|done].
    + right. split; [done|]. exists (fsPath r). split; [done|]. split; [done|].
      right. split; [done|]. eexists. by repeat split.
  - destruct (negb _).
    + left. exists fileNotFoundError. split; [set_solver|done].
    + right. split; [done|]. exists (fsPath r). split; [done|]. split; [done|].
      by left.
Qed.

Lemma response_kinds_witness :
  ∃ resp,
    handleConnResponse defaultConfig "tests" 0 0 0 (statTree testsTree) ∅
      (λ _, None) (λ _, Started) None
      [ReadData ("/text.txt" +:+ String CR (String LF ""))] = Some resp ∧
    resp_status resp = okStatus ∧ resp_reader resp = FileReader "tests/text.txt".
Proof.
  eexists. split; [vm_compute; reflexivity|].
  destruct (response_kinds defaultConfig "tests" 0 0 0 (statTree testsTree) ∅
              (λ _, None) (λ _, Started) None
              [ReadData ("/text.txt" +:+ String CR (String LF ""))]
              {| resp_reader := FileReader "tests/text.txt";
                 resp_status := okStatus; resp_cmd := None |})
    as [(e & _ & He)|(Hst & _)].
  - vm_compute. reflexivity.
  - discriminate He.
  - split; [exact Hst|reflexivity].
Defined.

(** ** The response loop *)

Lemma wrap_uint64_range z : (0 ≤ wrap_uint64 z < 2 ^ 64)%Z.
Proof. unfold wrap_uint64. apply Z.mod_pos_bound. lia. Qed.

Lemma wrap_uint64_add a b :
  wrap_uint64 (wrap_uint64 a + b) = wrap_uint64 (a + b).
Proof. unfold wrap_uint64. by rewrite Zplus_mod_idemp_l. Qed.

Lemma wrap_uint64_idem a : wrap_uint64 (wrap_uint64 a) = wrap_uint64 a.
Proof. unfold wrap_uint64. by rewrite Z.mod_mod. Qed.

Lemma streamLoop_account conn_Write k reads transferred sent :
  (∀ k b, (conn_Write k b).1 ≤ len b) →
  let '(transferred', sent') := streamLoop conn_Write k reads transferred sent in
  ∃ out, sent' = sent +:+ out ∧
    wrap_uint64 transferred' = wrap_uint64 (transferred + Z.of_nat (len out)) ∧
    len out ≤ len (responseBody reads).
Proof.
  intros Hw. revert k transferred sent.
  induction reads as [|buf reads IH]; intros k transferred sent; simpl.
  { exists "". by rewrite app_empty_r, Z.add_0_r. }
  destruct (len buf =? 0) eqn:E.
  { exists "". by rewrite app_empty_r, Z.add_0_r. }
  specialize (Hw k buf) as Hn.
  destruct (conn_Write k buf) as [n failed]. simpl in Hn.
  assert (len (str_take n buf) = n) as Hlen by (rewrite len_take; lia).
  destruct (failed || (n =? 0)).
  - exists (str_take n buf). split; [done|]. rewrite Hlen.
    split; [by rewrite wrap_uint64_idem|]. rewrite len_app. lia.
  - specialize (IH (S k) (wrap_uint64 (transferred + Z.of_nat n))
                  (sent +:+ str_take n buf)).
    destruct (streamLoop _ _ _ _ _) as [t' s'].
    destruct IH as (out & -> & Ht & Ho).
    exists (str_take n buf +:+ out). split; [by rewrite app_assoc'|].
    rewrite !len_app, Hlen. split; [|lia].
    rewrite Ht, wrap_uint64_add. f_equal. lia.
Qed.

(** X12. Whatever the connection does with the writes (within the contract
    of [Write], which takes no more than it is given), the count
    [transferred] that the request log gets is the number of bytes that the
    connection took, modulo 2^64, and these are no more than the response
    holds. *)
Theorem streamLoop_transferred (conn_Write : nat → string → nat * bool)
    (reads : list string) :
  (∀ k b, (conn_Write k b).1 ≤ len b) →
  let '(transferred, sent) := streamLoop conn_Write 0 reads 0 "" in
  wrap_uint64 transferred = wrap_uint64 (Z.of_nat (len sent)) ∧
  len sent ≤ len (responseBody reads).
Proof.
  intros Hw. pose proof (streamLoop_account conn_Write 0 reads 0 "" Hw) as H.
  destruct (streamLoop _ _ _ _ _) as [t s]. by destruct H as (out & -> & ? & ?).
Qed.

Lemma streamLoop_transferred_witness :
  let conn_Write := λ (k : nat) (b : string),
    if k =? 0 then (len b, false) else (1 `min` len b, true) in
  streamLoop conn_Write 0 ["0123456789"; "abcdefghij"; "ABCDEFGHIJ"] 0 ""
  = (11%Z, "0123456789a") ∧
  wrap_uint64 11 = wrap_uint64 (Z.of_nat (len "0123456789a")).
Proof.
  intros conn_Write. split; [reflexivity|].
  assert (∀ k b, (conn_Write k b).1 ≤ len b) as Hw.
  { intros k b. unfold conn_Write.
    destruct (k =? 0); [apply Nat.le_refl|apply Nat.le_min_r]. }
  exact (proj1 (streamLoop_transferred conn_Write
                  ["0123456789"; "abcdefghij"; "ABCDEFGHIJ"] Hw)).
Defined.

Lemma streamLoop_all conn_Write k reads transferred sent :
  (∀ k b, conn_Write k b = (len b, false)) →
  streamLoop conn_Write k reads transferred sent
  = (if len (responseBody reads) =? 0 then transferred
     else wrap_uint64 (transferred + Z.of_nat (len (responseBody reads))),
     sent +:+ responseBody reads).
Proof.
  intros Hw. revert k transferred sent.
  induction reads as [|buf reads IH]; intros k transferred sent; simpl.
  { by rewrite app_empty_r. }
  destruct (len buf =? 0) eqn:E; simpl; [by rewrite app_empty_r|].
  rewrite Hw, E, orb_false_r. simpl. rewrite IH, str_take_all by lia.
  rewrite app_assoc', len_app. apply Nat.eqb_neq in E.
  replace (len buf + len (responseBody reads) =? 0) with false
    by (symmetry; apply Nat.eqb_neq; lia).
  f_equal. destruct (len (responseBody reads) =? 0) eqn:E'.
  - apply Nat.eqb_eq in E'. rewrite E'. do 2 f_equal. lia.
  - rewrite wrap_uint64_add. f_equal. lia.
Qed.

(** X13. When every write takes all it is given, the connection gets the
    response as it is, up to its first read of 0 bytes, and [transferred] is
    the length of it (modulo 2^64). *)
Theorem streamLoop_verbatim (conn_Write : nat → string → nat * bool)
    (reads : list string) :
  (∀ k b, conn_Write k b = (len b, false)) →
  streamLoop conn_Write 0 reads 0 ""
  = (wrap_uint64 (Z.of_nat (len (responseBody reads))), responseBody reads).
Proof.
  intros Hw. rewrite (streamLoop_all _ _ _ _ _ Hw).
  change ("" +:+ responseBody reads) with (responseBody reads). f_equal.
  destruct (len (responseBody reads) =? 0) eqn:E; [|done].
  apply Nat.eqb_eq in E. by rewrite E.
Qed.

Lemma streamLoop_verbatim_witness :
  streamLoop (λ _ b, (len b, false)) 0 ["line one  "; "line two  "; "line three"] 0 ""
  = (30%Z, "line one  line two  line three").
Proof.
  rewrite (streamLoop_verbatim (λ _ b, (len b, false))
             ["line one  "; "line two  "; "line three"]); [reflexivity|].
  intros k b. reflexivity.
Defined.

(** ** Configuration *)

(** X14. Setting an integer option and reading it back: [configInt] gives
    the value set and [configString] its decimal form, and no other option
    changes. *)
Theorem setConfigInt_get (configMap : gmap string configValue) (name : string)
    (old value : Z) :
  configMap !! name = Some (IntValue old) →
  configInt (setConfigInt configMap name value) name = value ∧
  configString (setConfigInt configMap name value) name = sprintf_d value ∧
  ∀ other, other ≠ name →
    setConfigInt configMap name value !! other = configMap !! other.
Proof.
  intros H. unfold configInt, configString, setConfigInt. rewrite H.
  rewrite lookup_insert_eq. split; [done|]. split; [done|].
  intros other Hne. by rewrite lookup_insert_ne.
Qed.

Lemma setConfigInt_get_witness :
  configInt (setConfigInt defaultConfig "serverport" 7070) "serverport" = 7070%Z ∧
  configString (setConfigInt defaultConfig "serverport" 7070) "serverport" = "7070".
Proof.
  destruct (setConfigInt_get defaultConfig "serverport" 70 7070) as (H1 & H2 & _).
  - vm_compute. reflexivity.
  - split; [exact H1|exact H2].
Defined.

(** X15. The setters never create an option and never change the kind of
    one: on a name that is absent or that holds a value of the other kind
    they do nothing, and then [configInt] reads 0. *)
Theorem setConfig_kind (configMap : gmap string configValue) (name : string)
    (i : Z) (s : string) :
  (∀ v, configMap !! name ≠ Some (IntValue v)) →
  setConfigInt configMap name i = configMap ∧
  configInt configMap name = 0%Z ∧
  (configMap !! name = None →
     setConfigString configMap name s = configMap ∧
     configString configMap name = "unsupport type").
Proof.
  intros H. unfold setConfigInt, configInt, setConfigString, configString.
  destruct (configMap !! name) as [[v|v]|] eqn:E; try done.
  by destruct (H v).
Qed.

Lemma setConfig_kind_witness :
  setConfigInt defaultConfig "serverhost" 70 = defaultConfig ∧
  configInt defaultConfig "serverhost" = 0%Z.
Proof.
  destruct (setConfig_kind defaultConfig "serverhost" 70 "") as (H1 & H2 & _).
  - intros v. vm_compute. discriminate.
  - split; [exact H1|exact H2].
Defined.

(** ** Excluded extensions *)

Lemma HasPrefix_dot s : HasPrefix s "." = true → ∃ r, s = String "." r.
Proof.
  destruct s as [|x r]; [done|]. unfold HasPrefix. change (len ".") with 1.
  rewrite str_take_S, str_take_0. intros H%String.eqb_eq. injection H as ->.
  by exists r.
Qed.

Lemma extScan_None t :
  extScan t = None → ContainsByte t "." = false ∧ ContainsByte t "/" = false.
Proof.
  induction t as [|y t IHt]; [done|]. simpl.
  destruct (extScan t); [done|].
  destruct (Ascii.eqb y "."); [done|]. destruct (Ascii.eqb y "/"); [done|].
  intros _. by destruct IHt.
Qed.

Lemma extScan_shape s e :
  extScan s = Some e →
  (e = "" ∨ ∃ r, e = String "." r ∧ ContainsByte r "." = false ∧
                 ContainsByte r "/" = false) ∧
  ∃ p, s = p +:+ e.
Proof.
  revert e. induction s as [|x s IH]; intros e; [done|]. simpl.
  destruct (extScan s) as [e'|] eqn:Hs.
  - intros [= <-]. destruct (IH e' eq_refl) as (H1 & p & ->).
    split; [done|]. by exists (String x p).
  - destruct (Ascii.eqb x ".") eqn:Ex.
    + intros [= <-]. apply ascii_eqb_true in Ex as ->.
      destruct (extScan_None s Hs). split; [|by exists ""].
      right. by exists s.
    + destruct (Ascii.eqb x "/"); [|done]. intros [= <-].
      split; [by left|]. exists (String x s). by rewrite app_empty_r.
Qed.

(** X16. [filepath.Ext] returns either nothing or a suffix of the path made
    of a dot followed by bytes that are neither a dot nor a slash: the form
    that the flag [-exclude] asks of an extension. *)
Theorem Ext_shape (path : string) :
  Ext path = "" ∨
  (extension_ok (Ext path) ∧ ContainsByte (Ext path) "/" = false ∧
   HasSuffix path (Ext path) = true).
Proof.
  unfold Ext. destruct (extScan path) as [e|] eqn:He; [|by left]. simpl.
  destruct (extScan_shape _ _ He) as ([->|(r & -> & H1 & H2)] & p & ->);
    [by left|right].
  split; [by split|]. split; [by simpl; rewrite H2|]. apply HasSuffix_app.
Qed.

Lemma extScan_absent e :
  ContainsByte e "." = false → ContainsByte e "/" = false → extScan e = None.
Proof.
  induction e as [|x e IH]; [done|]. simpl.
  intros [H1 H2]%orb_false_iff [H3 H4]%orb_false_iff.
  by rewrite (IH H2 H4), H1, H3.
Qed.

Lemma Ext_app base e :
  ContainsByte e "." = false → ContainsByte e "/" = false →
  Ext (base +:+ String "." e) = String "." e.
Proof.
  intros H1 H2. unfold Ext.
  assert (extScan (base +:+ String "." e) = Some (String "." e)) as ->; [|done].
  induction base as [|x base IH].
  - change ("" +:+ String "." e) with (String "." e). simpl.
    by rewrite (extScan_absent e H1 H2).
  - rewrite app_cons. simpl. by rewrite IH.
Qed.

(** X17. The flag [-exclude] keeps [excluded] well formed: when it accepts
    an extension, every key of the map is still a dot followed by bytes that
    are no dot, with the value [true]; and nothing that was excluded stops
    being so. *)
Theorem excludeFlag_form (excluded excluded' : gmap string bool) (ext : string) :
  map_Forall (λ k v, extension_ok k ∧ v = true) excluded →
  excludeFlag excluded ext = Some excluded' →
  map_Forall (λ k v, extension_ok k ∧ v = true) excluded' ∧
  ∀ k, isExcluded excluded k = true → isExcluded excluded' k = true.
Proof.
  intros Hall. unfold excludeFlag.
  destruct (String.eqb ext ""); [by intros [= <-]|].
  set (ext' := if negb (HasPrefix ext ".") then "." +:+ ext else ext).
  destruct (ContainsByte (str_drop 1 ext') ".") eqn:Hdot; [done|].
  intros [= <-]. split.
  - apply map_Forall_insert_2; [|done]. split; [|done]. split; [|done].
    unfold ext'. by destruct (HasPrefix ext ".") eqn:E.
  - intros k. unfold isExcluded.
    destruct (decide (ext' = k)) as [->|Hne];
      [by rewrite lookup_insert_eq|by rewrite lookup_insert_ne].
Qed.

Lemma excludeFlag_form_witness :
  excludeFlag excludeBak "tmp" = Some (<[".tmp" := true]> excludeBak) ∧
  map_Forall (λ k v, extension_ok k ∧ v = true) (<[".tmp" := true]> excludeBak) ∧
  isExcluded (<[".tmp" := true]> excludeBak) ".bak" = true.
Proof.
  split; [reflexivity|].
  destruct (excludeFlag_form excludeBak (<[".tmp" := true]> excludeBak) "tmp")
    as [H1 H2].
  - apply map_Forall_singleton. split; [split; reflexivity|reflexivity].
  - reflexivity.
  - split; [exact H1|]. apply H2. vm_compute. reflexivity.
Defined.

(** X18. After [-exclude e] or [-exclude .e], for an extension [e] without
    dot or slash, no regular file whose name ends in [.e] is served:
    [getStats] answers "forbidden" for it. *)
Theorem excludeFlag_effective os_Stat (excluded : gmap string bool)
    (ext e : string) :
  ContainsByte e "." = false → ContainsByte e "/" = false →
  (ext = e ∧ e ≠ "") ∨ ext = String "." e →
  ∃ excluded', excludeFlag excluded ext = Some excluded' ∧
    ∀ base mode,
      os_Stat (base +:+ String "." e) = inl mode → IsRegular mode = true →
      getStats os_Stat excluded' (base +:+ String "." e)
      = (false, false, false, Some forbiddenError) ∧
      canServeFile os_Stat excluded' (base +:+ String "." e) = false.
Proof.
  intros H1 H2 Hext.
  assert (excludeFlag excluded ext = Some (<[String "." e := true]> excluded)) as ->.
  { unfold excludeFlag. destruct Hext as [[-> Hne]| ->].
    - apply String.eqb_neq in Hne. rewrite Hne.
      assert (HasPrefix e "." = false) as ->.
      { destruct e as [|x e]; [done|]. simpl in H1.
        apply orb_false_iff in H1 as [H1 _]. unfold HasPrefix.
        change (len ".") with 1. rewrite str_take_S, str_take_0. simpl.
        by rewrite H1. }
      simpl. change ("." +:+ e) with (String "." e).
      by rewrite str_drop_S_cons, str_drop_0, H1.
    - replace (String.eqb (String "." e) "") with false by done.
      assert (HasPrefix (String "." e) "." = true) as ->.
      { unfold HasPrefix. change (len ".") with 1.
        by rewrite str_take_S, str_take_0. }
      cbn [negb]. by rewrite str_drop_S_cons, str_drop_0, H1. }
  eexists. split; [done|]. intros base mode Hst Hreg.
  assert (getStats os_Stat (<[String "." e := true]> excluded) (base +:+ String "." e)
          = (false, false, false, Some forbiddenError)) as Hgs.
  { unfold getStats. rewrite Hst, Hreg, Ext_app by done.
    unfold isExcluded. by rewrite lookup_insert_eq. }
  split; [done|]. unfold canServeFile. by rewrite Hgs.
Qed.

Lemma excludeFlag_effective_witness :
  ∃ excluded', excludeFlag ∅ "bak" = Some excluded' ∧
    canServeFile (statTree backupTree) excluded' "srv/secret.bak" = false.
Proof.
  destruct (excludeFlag_effective (statTree backupTree) ∅ "bak" "bak")
    as (excluded' & H1 & H2).
  - reflexivity.
  - reflexivity.
  - left. split; [reflexivity|discriminate].
  - exists excluded'. split; [exact H1|].
    apply (H2 "srv/secret" 420%Z); reflexivity.
Defined.

(** ** [gopher-ls]: names and selectors of a menu *)

Lemma ReplaceAllByte_app a b from to :
  ReplaceAllByte (a +:+ b) from to
  = ReplaceAllByte a from to +:+ ReplaceAllByte b from to.
Proof.
  induction a as [|x a IH]; [done|]. rewrite app_cons. simpl. rewrite IH.
  destruct (Ascii.eqb x from); [by rewrite app_assoc'|done].
Qed.

Lemma ReplaceAllByte_mapBytes f s from to :
  ReplaceAllByte (mapBytes f s) from to
  = mapBytes (λ x, ReplaceAllByte (f x) from to) s.
Proof.
  induction s as [|x s IH]; [done|]. simpl. by rewrite ReplaceAllByte_app, IH.
Qed.

Lemma mapBytes_id s : mapBytes (λ x, String x "") s = s.
Proof. induction s as [|x s IH]; [done|]. simpl. by rewrite IH. Qed.

(** The substitutions, made one after the other on the whole string, come
    to the same as making them on each byte. *)
Lemma escapeEntry_bytes name selector :
  escapeEntry name selector
  = (mapBytes (escapeByte false) name, mapBytes (escapeByte true) selector).
Proof.
  unfold escapeEntry, escapeByte, subs. simpl.
  rewrite <- (mapBytes_id name) at 1. rewrite <- (mapBytes_id selector) at 1.
  by rewrite !ReplaceAllByte_mapBytes.
Qed.



Lemma PathUnescape_escapeByte (inSelector : bool) x rest :
  PathUnescape (escapeByte inSelector x +:+ rest) = String x <$> PathUnescape rest.
Proof.
  destruct inSelector; destruct x as [[] [] [] [] [] [] [] []]; reflexivity.
Qed.

Lemma PathUnescape_mapBytes (inSelector : bool) s :
  PathUnescape (mapBytes (escapeByte inSelector) s) = Some s.
Proof.
  induction s as [|x s IH]; [done|]. simpl.
  by rewrite PathUnescape_escapeByte, IH.
Qed.


(** X20. Escaping by [gopher-ls] and unescaping by the server are inverse:
    [url.PathUnescape] gives back the selector (and the name) that the
    substitutions of [gopher-ls] were made on. *)
Theorem escapeEntry_unescape (name selector : string) :
  let '(name', selector') := escapeEntry name selector in
  PathUnescape selector' = Some selector ∧ PathUnescape name' = Some name.
Proof.
  rewrite escapeEntry_bytes. split; apply PathUnescape_mapBytes.
Qed.

Example escapeEntry_example :
  escapeEntry ("50% off?" +:+ String TAB "x") ("/a/50% off?" +:+ String TAB "x")
  = ("50%25 off?%09x", "/a/50%25 off%3F%09x").
Proof. reflexivity. Qed.

(** ** [gopher-ls]: sizes *)

Lemma wrap_int64_small z : (- 2 ^ 63 ≤ z < 2 ^ 63)%Z → wrap_int64 z = z.
Proof. intros H. unfold wrap_int64. rewrite Z.mod_small; lia. Qed.

(** Rounding up to tenths of a unit, as the body of the loop does it. *)
Lemma scale_step size m10 :
  (0 < m10)%Z → (0 ≤ size)%Z → (size + m10 < 2 ^ 63)%Z →
  let scaled := (wrap_int64 (wrap_int64 (size + m10) - 1) ÷ m10)%Z in
  ((scaled - 1) * m10 < size ≤ scaled * m10)%Z.
Proof.
  intros Hm Hs Hb. cbv zeta.
  rewrite (wrap_int64_small (size + m10)) by lia.
  rewrite wrap_int64_small by lia.
  rewrite Z.quot_div_nonneg by lia.
  pose proof (Z.div_mod (size + m10 - 1) m10 ltac:(lia)) as Hd.
  pose proof (Z.mod_pos_bound (size + m10 - 1) m10 Hm) as Hr.
  nia.
Qed.

(** X21. For a size of 1000 bytes or more (and below 2^63 - 10^17, where the
    rounding would overflow), [humanSize] prints the size in tenths of a
    unit: the number printed lies between 1.0 and 900.0, the unit is one of
    the table, and the size is rounded up to the next tenth, never down. *)
Theorem humanSize_rounds_up (size : Z) :
  (1000 ≤ size < 2 ^ 63 - 10 ^ 17)%Z →
  ∃ scaled prefix multiplier,
    humanSize size
    = sprintf_d (scaled ÷ 10) +:+ "." +:+ sprintf_d (Z.rem scaled 10) +:+ " "
        +:+ String prefix "B" ∧
    (prefix, multiplier) ∈ sizePrefixes ∧
    (10 ≤ scaled ≤ 9000)%Z ∧
    ((scaled - 1) * (multiplier ÷ 10) < size ≤ scaled * (multiplier ÷ 10))%Z.
Proof.
  intros [Hlo Hhi]. unfold humanSize.
  replace (size <? 0)%Z with false by (symmetry; apply Z.ltb_ge; lia).
  replace (size <? 1000)%Z with false by (symmetry; apply Z.ltb_ge; lia).
  assert (∃ scaled prefix multiplier,
            scaleSize sizePrefixes size = (scaled, prefix) ∧
            (prefix, multiplier) ∈ sizePrefixes ∧
            (10 ≤ scaled ≤ 9000)%Z ∧
            ((scaled - 1) * (multiplier ÷ 10) < size ≤ scaled * (multiplier ÷ 10))%Z)
    as (scaled & prefix & multiplier & -> & Hin & Hb & Hr).
  2: { by exists scaled, prefix, multiplier. }
  change (2 ^ 63 - 10 ^ 17)%Z with 9123372036854775808%Z in Hhi.
  assert (∀ p mult m10 rest,
            (mult ÷ 10)%Z = m10 → (0 < m10)%Z → (mult = 10 * m10)%Z →
            (p, mult) ∈ sizePrefixes →
            (size ≤ 9000 * m10)%Z → (size + m10 < 2 ^ 63)%Z →
            (size > mult - m10)%Z →
            ∃ scaled prefix multiplier,
              scaleSize ((p, mult) :: rest) size = (scaled, prefix) ∧
              (prefix, multiplier) ∈ sizePrefixes ∧
              (10 ≤ scaled ≤ 9000)%Z ∧
              ((scaled - 1) * (multiplier ÷ 10) < size ≤ scaled * (multiplier ÷ 10))%Z)
    as Hcase.
  { intros p mult m10 rest Hq Hm Hmult Hin Hup Hov Hgt.
    exists (wrap_int64 (wrap_int64 (size + m10) - 1) ÷ m10)%Z, p, mult.
    cbn [scaleSize]. rewrite Hq.
    replace (size >? mult - m10)%Z with true by (symmetry; apply Z.gtb_lt; lia).
    split; [done|]. split; [done|].
    pose proof (scale_step size m10 Hm ltac:(lia) Hov) as Hstep. cbv zeta in Hstep.
    split; [nia|done]. }
  assert (∀ p mult m10 rest,
            (mult ÷ 10)%Z = m10 → (size ≤ mult - m10)%Z →
            scaleSize ((p, mult) :: rest) size = scaleSize rest size) as Hskip.
  { intros p mult m10 rest Hq Hle. cbn [scaleSize]. rewrite Hq.
    by replace (size >? mult - m10)%Z with false by (symmetry; rewrite Z.gtb_ltb; apply Z.ltb_ge; lia). }
  assert (∀ p mult, In (p, mult) sizePrefixes → (p, mult) ∈ sizePrefixes) as Hin
    by (intros; by apply list_elem_of_In).
  change (2 ^ 63)%Z with 9223372036854775808%Z in Hcase.
  unfold sizePrefixes at 1.
  destruct (Z_gt_le_dec size (10 ^ 18 - 10 ^ 17)) as [H|H].
  { apply (Hcase _ _ (10 ^ 17)%Z); try done; try lia. apply Hin. simpl. tauto. }
  rewrite (Hskip _ _ (10 ^ 17)%Z) by done.
  destruct (Z_gt_le_dec size (10 ^ 15 - 10 ^ 14)) as [H'|H'].
  { apply (Hcase _ _ (10 ^ 14)%Z); try done; try lia. apply Hin. simpl. tauto. }
  rewrite (Hskip _ _ (10 ^ 14)%Z) by done. clear H.
  destruct (Z_gt_le_dec size (10 ^ 12 - 10 ^ 11)) as [H|H].
  { apply (Hcase _ _ (10 ^ 11)%Z); try done; try lia. apply Hin. simpl. tauto. }
  rewrite (Hskip _ _ (10 ^ 11)%Z) by done. clear H'.
  destruct (Z_gt_le_dec size (10 ^ 9 - 10 ^ 8)) as [H'|H'].
  { apply (Hcase _ _ (10 ^ 8)%Z); try done; try lia. apply Hin. simpl. tauto. }
  rewrite (Hskip _ _ (10 ^ 8)%Z) by done. clear H.
  destruct (Z_gt_le_dec size (10 ^ 6 - 10 ^ 5)) as [H|H].
  { apply (Hcase _ _ (10 ^ 5)%Z); try done; try lia. apply Hin. simpl. tauto. }
  rewrite (Hskip _ _ (10 ^ 5)%Z) by done. clear H'.
  apply (Hcase _ _ (10 ^ 2)%Z); try done; try lia. apply Hin. simpl. tauto.
Qed.

Lemma humanSize_rounds_up_witness :
  humanSize 1234567 = "1.3 MB" ∧ humanSize 999 = "999  B" ∧ humanSize 1000 = "1.0 kB".
Proof.
  split; [|split; reflexivity].
  destruct (humanSize_rounds_up 1234567) as (scaled & prefix & m & H & _).
  - split; [lia|]. reflexivity.
  - reflexivity.
Defined.

(** ** Confinement to the document root *)

(** X22. A successful resolution stays below the document root: the file is
    the root followed by the script name (and, for an index file, by its
    name), and no segment of the script name or of the path info is [.] or
    [..]. *)
Theorem splitPath_confined os_Stat excluded (rootPath path : string) (r : resolved) :
  splitPath os_Stat excluded rootPath path = Some r →
  err r = None →
  (fsPath r = rootPath +:+ scriptName r ∨
   ∃ ip, ip ∈ indexPaths ∧ fsPath r = rootPath +:+ scriptName r +:+ ip) ∧
  ∀ seg, seg ∈ splitSlash (scriptName r) ∨ seg ∈ splitSlash (pathInfo r) →
    seg ≠ "." ∧ seg ≠ "..".
Proof.
  intros Hr He.
  destruct (splitPath_resolution _ _ _ _ _ Hr He)
    as (p & q & _ & Hq & Hcat & Hfs & Hinfo & _).
  split; [done|]. intros seg Hseg.
  apply normalizePath_Some in Hq as (np & -> & Hok).
  assert (seg = "" ∨ seg ∈ splitSlash (flatten np)) as [->|Hin]; [|done|].
  - destruct Hinfo as [Hi|Hi].
    + rewrite Hi, app_empty_r in Hcat. rewrite Hi in Hseg. rewrite <- Hcat.
      destruct Hseg as [?|Hs]; [by right|]. left.
      by apply list_elem_of_singleton in Hs.
    + destruct (pathInfo r) as [|x info] eqn:Ei; [done|].
      assert (x = "/"%char) as ->.
      { unfold HasPrefix in Hi. change (len "/") with 1 in Hi.
        rewrite str_take_S, str_take_0 in Hi. apply String.eqb_eq in Hi.
        by injection Hi. }
      rewrite <- Hcat, splitSlash_app_slash.
      destruct Hseg as [?|Hs]; [right; apply elem_of_app; by left|].
      change (splitSlash (String "/" info)) with ("" :: splitSlash info) in Hs.
      apply elem_of_cons in Hs as [->|?]; [by left|].
      right. apply elem_of_app. by right.
  - rewrite splitSlash_flatten in Hin by done.
    apply elem_of_cons in Hin as [->|Hin]; [done|].
    rewrite Forall_forall in Hok. by destruct (Hok seg Hin) as (_ & ? & ?).
Qed.

Lemma splitPath_confined_witness :
  testSplitPath "/foo/x/../bar/./path/info"
  = resolvedOk "tests/foo/bar/index.cgi" "/foo/bar" "/path/info" ∧
  "bar" ≠ "." ∧ "bar" ≠ "..".
Proof.
  assert (testSplitPath "/foo/x/../bar/./path/info"
          = resolvedOk "tests/foo/bar/index.cgi" "/foo/bar" "/path/info") as H
    by (vm_compute; reflexivity).
  split; [exact H|].
  apply (proj2 (splitPath_confined _ _ _ _ _ H eq_refl) "bar").
  left. apply list_elem_of_In. simpl. tauto.
Defined.

(** ** [url.PathUnescape] *)

(** X23. A path without [%] is left as it is by [url.PathUnescape]; in
    particular a [+] is not turned into a space. *)
Theorem PathUnescape_plain (path : string) :
  ContainsByte path "%" = false → PathUnescape path = Some path.
Proof.
  induction path as [|x path IH]; [done|]. simpl.
  intros [Hx Hp]%orb_false_iff. by rewrite Hx, (IH Hp).
Qed.

Lemma PathUnescape_plain_witness : PathUnescape "/a+b c" = Some "/a+b c".
Proof. apply PathUnescape_plain. reflexivity. Defined.

(** ** The port of the menus *)

(** X24. Once [main] has let [serverport] adopt the listen port, the port
    that menus and CGI scripts get is never 0 when the listen port is not,
    and an explicit [serverport] is kept. *)
Theorem adoptListenPort_port (configMap : gmap string configValue)
    (serverport port : Z) :
  configMap !! "serverport" = Some (IntValue serverport) →
  port ≠ 0%Z →
  let configMap' := adoptListenPort configMap port in
  configInt configMap' "serverport" ≠ 0%Z ∧
  configString configMap' "serverport"
  = sprintf_d (if (serverport =? 0)%Z then port else serverport) ∧
  adoptListenPort configMap' port = configMap'.
Proof.
  intros H Hport. cbv zeta.
  assert (configInt configMap "serverport" = serverport) as Hget
    by (unfold configInt; by rewrite H).
  destruct (serverport =? 0)%Z eqn:E.
  - assert (adoptListenPort configMap port
            = setConfigInt configMap "serverport" port) as ->
      by (unfold adoptListenPort; by rewrite Hget, E).
    assert (configInt (setConfigInt configMap "serverport" port) "serverport"
            = port) as Hset.
    { unfold configInt, setConfigInt. by rewrite H, lookup_insert_eq. }
    split; [by rewrite Hset|]. split.
    + unfold configString, setConfigInt. by rewrite H, lookup_insert_eq.
    + unfold adoptListenPort. rewrite Hset.
      by replace (port =? 0)%Z with false by (symmetry; by apply Z.eqb_neq).
  - assert (adoptListenPort configMap port = configMap) as ->
      by (unfold adoptListenPort; by rewrite Hget, E).
    rewrite Hget. split; [by apply Z.eqb_neq|].
    split; [unfold configString; by rewrite H|].
    unfold adoptListenPort. by rewrite Hget, E.
Qed.

Lemma adoptListenPort_port_witness :
  let configMap := <["serverport" := IntValue 0]> defaultConfig in
  configString (adoptListenPort configMap 7070) "serverport" = "7070".
Proof.
  intros configMap.
  destruct (adoptListenPort_port configMap 0 7070) as (_ & H & _).
  - vm_compute. reflexivity.
  - discriminate.
  - exact H.
Defined.

(** ** The order of the entries (cmd/gopher-ls) *)

Lemma String_compare_refl (s : string) : String.compare s s = Eq.
Proof.
  induction s as [|c s IH]; [done|]. simpl.
  unfold Ascii.compare. by rewrite N.compare_refl.
Qed.

Lemma String_compare_lt_trans (a b c : string) :
  String.compare a b = Lt → String.compare b c = Lt → String.compare a c = Lt.
Proof.
  revert b c. induction a as [|x a IH]; intros [|y b] [|z c]; simpl; try done.
  unfold Ascii.compare.
  destruct (N.compare_spec (N_of_ascii x) (N_of_ascii y)) as [Exy|Lxy|Gxy];
    [|clear IH|done];
    (destruct (N.compare_spec (N_of_ascii y) (N_of_ascii z)) as [Eyz|Lyz|Gyz];
     [| |done]);
    destruct (N.compare_spec (N_of_ascii x) (N_of_ascii z)) as [Exz|Lxz|Gxz];
    try done; try lia.
  apply IH.
Qed.

Lemma String_ltb_irrefl (s : string) : String.ltb s s = false.
Proof. unfold String.ltb. by rewrite String_compare_refl. Qed.

Lemma String_ltb_trans (a b c : string) :
  String.ltb a b = true → String.ltb b c = true → String.ltb a c = true.
Proof.
  unfold String.ltb. intros Hab Hbc.
  rewrite (String_compare_lt_trans a b c); [done| |].
  - by destruct (String.compare a b).
  - by destruct (String.compare b c).
Qed.

Lemma String_ltb_total (a b : string) :
  String.ltb a b = false → String.ltb b a = false → a = b.
Proof.
  unfold String.ltb. rewrite (String.compare_antisym b a).
  destruct (String.compare a b) eqn:E; try done.
  intros _ _. by apply String.compare_eq_iff.
Qed.

Lemma sortFunc_cases (sortBy : string) :
  sortFunc sortBy = byName ∨ sortFunc sortBy = byModTime
  ∨ sortFunc sortBy = bySize.
Proof.
  unfold sortFunc.
  destruct (_ || _); [by left|]. destruct (_ || _); [right; by left|].
  destruct (_ || _); [right; by right|by left].
Qed.

Ltac less_cases :=
  repeat match goal with
  | |- context [(?x =? ?y)%Z] => destruct (Z.eqb_spec x y)
  | |- context [(?x <? ?y)%Z] => destruct (Z.ltb_spec x y)
  | H : context [(?x =? ?y)%Z] |- _ => destruct (Z.eqb_spec x y)
  | H : context [(?x <? ?y)%Z] |- _ => destruct (Z.ltb_spec x y)
  end.

(** X25. Whatever [LS_SORTBY] is, the function given to [sort.Slice] without
    [LS_SORTREV] is a strict order on the entries: no entry is less than
    itself, less is transitive, and two entries neither of which is less than
    the other have the same name and are both directories or both not. *)
Theorem sortFunc_strict_order (sortBy : string)
    (fileInfos : list ls.gopherFileInfo) (i j k : nat) (a b c : ls.gopherFileInfo) :
  fileInfos !! i = Some a → fileInfos !! j = Some b → fileInfos !! k = Some c →
  let less := reverser (sortFunc sortBy) fileInfos false in
  less i i = Some false ∧
  (less i j = Some true → less j k = Some true → less i k = Some true) ∧
  (less i j = Some false → less j i = Some false →
   ls.Name a = ls.Name b ∧ ls.IsDir a = ls.IsDir b).
Proof.
  intros Ha Hb Hc. cbv zeta. unfold reverser.
  pose proof (String_ltb_irrefl (ls.Name a)) as Hirr.
  pose proof (String_ltb_trans (ls.Name a) (ls.Name b) (ls.Name c)) as Htr.
  pose proof (String_ltb_total (ls.Name a) (ls.Name b)) as Htot.
  destruct (sortFunc_cases sortBy) as [-> | [-> | ->]];
    unfold byName, byModTime, bySize; rewrite Ha, Hb, Hc; simpl;
    destruct (ls.IsDir a), (ls.IsDir b), (ls.IsDir c); simpl;
    rewrite ?Hirr, ?Z.eqb_refl; (split; [done|]);
    (split; [less_cases; try done; try lia;
             intros [= H1] [= H2]; by rewrite Htr
            |less_cases; try done; try lia;
             intros [= H1] [= H2]; by rewrite Htot]).
Qed.

Lemma sortFunc_strict_order_witness :
  let fileInfos :=
    [ {| ls.ModTime := 3; ls.Size := 10; ls.name := "b.txt"; ls.selector := "/b.txt";
         ls.isMap := false |};
      {| ls.ModTime := 1; ls.Size := 30; ls.name := "docs"; ls.selector := "/docs";
         ls.isMap := true |};
      {| ls.ModTime := 2; ls.Size := 20; ls.name := "a.txt"; ls.selector := "/a.txt";
         ls.isMap := false |} ] in
  reverser (sortFunc "time") fileInfos false 1 0 = Some true.
Proof.
  intros fileInfos.
  refine (proj1 (proj2 (sortFunc_strict_order "time" fileInfos 1 2 0 _ _ _
                          eq_refl eq_refl eq_refl)) _ _);
    vm_compute; reflexivity.
Defined.



(** ** What a CGI script is told about the request *)

(** X27. When the response to a request is the output of a child, the child
    is a regular file that is not excluded and whose name ends in [.cgi], and
    its environment tells it the request: [SCRIPT_NAME] followed by
    [PATH_INFO] is the unescaped and normalized path of the request, which is
    also [REQUEST]; [SCRIPT_FILENAME] is the executable; [PATH_TRANSLATED] is
    empty without path info and the document root followed by the path info
    otherwise; and the raw selector, the query and the search string are
    handed over as they came. *)
Theorem cgi_request_environment configMap docRoot uptime requestCount
    bytesTransferred os_Stat excluded os_Open spawn conn
    (selector path query search : string) (resp : response) (cmd : Cmd) :
  getResponseForRequest configMap docRoot uptime requestCount bytesTransferred
    os_Stat excluded os_Open spawn conn selector path query search = Some resp →
  resp_cmd resp = Some cmd →
  resp_status resp = okStatus ∧
  HasSuffix (Path cmd) cgiExt = true ∧
  statsAsFile os_Stat excluded (Path cmd) ∧
  ∃ p normalized script info,
    PathUnescape path = Some p ∧ normalizePath p = Some normalized ∧
    script +:+ info = normalized ∧
    "SCRIPT_NAME=" +:+ script ∈ Env cmd ∧
    "PATH_INFO=" +:+ info ∈ Env cmd ∧
    "REQUEST=" +:+ normalized ∈ Env cmd ∧
    "SCRIPT_FILENAME=" +:+ Path cmd ∈ Env cmd ∧
    "PATH_TRANSLATED=" +:+ (if String.eqb info "" then "" else docRoot +:+ info)
      ∈ Env cmd ∧
    "SELECTOR=" +:+ selector ∈ Env cmd ∧
    "QUERY_STRING=" +:+ query ∈ Env cmd ∧
    "SEARCHREQUEST=" +:+ search ∈ Env cmd.
Proof.
  unfold getResponseForRequest.
  destruct (splitPath os_Stat excluded docRoot path) as [r|] eqn:Hr; [|done]. simpl.
  destruct (err r) as [e|] eqn:He; [by intros [= <-]|].
  destruct (splitPath_resolution _ _ _ _ _ Hr He)
    as (p & q & Hp & Hq & Hcat & _ & _ & Hfile).
  intros [= <-]. unfold getResponseFromPath.
  destruct (os_Open (fsPath r)); [by destruct (os_IsNotExist _)|].
  destruct (HasSuffix (fsPath r) cgiExt) eqn:Hcgi; [|by destruct (negb _)].
  unfold runCGI. destruct (spawn _); try done. simpl. intros [= <-].
  split; [done|]. split; [done|]. split; [done|].
  exists p, q, (scriptName r), (pathInfo r).
  split; [done|]. split; [done|]. split; [done|].
  rewrite <- Hcat. unfold cgiCommand, Env.
  destruct (String.eqb (pathInfo r) ""); simpl negb; cbv iota;
    repeat split; apply list_elem_of_In; simpl; tauto.
Qed.

Lemma cgi_request_environment_witness :
  let cmd := cgiCommand defaultConfig "tests" 0 0 0 (Some "192.0.2.1:40000")
               "/foo/bar/path/info?q" "tests/foo/bar/index.cgi" "/foo/bar"
               "/path/info" "q" "find" in
  HasSuffix (Path cmd) cgiExt = true ∧
  statsAsFile (statTree testsTree) ∅ (Path cmd).
Proof.
  intros cmd.
  destruct (cgi_request_environment defaultConfig "tests" 0 0 0
              (statTree testsTree) ∅ (λ _, None) (λ _, Started)
              (Some "192.0.2.1:40000") "/foo/bar/path/info?q"
              "/foo/bar/path/info" "q" "find"
              {| resp_reader := StdoutPipe cmd; resp_status := okStatus;
                 resp_cmd := Some cmd |} cmd) as (_ & H1 & H2 & _).
  - vm_compute. reflexivity.
  - reflexivity.
  - split; [exact H1|exact H2].
Defined.
